(** * Real-estate rent calculator: the financial core of [calculator.js]

    The JavaScript numbers of the program are modelled as exact rationals
    ([Q]): the specification speaks of reals, and every value the core
    computes is obtained from the inputs with [+], [*], [/] and an integer
    power.  Rounding of IEEE doubles is not modelled.  The three fields that
    count years are integers ([Z]), as the number fields of the form give
    them (their step is 1); the search bounds of [findOptimalRent] are
    integers in the program itself ([0], [50000000] and floors of
    midpoints).

    [Qdiv] agrees with the division of the program whenever the divisor is
    not zero; the statements about discounted values therefore carry the
    hypothesis that the capitalization rate is positive. *)

From Stdlib Require Import ZArith QArith Qround Qpower List Bool Lia Lqa.
Import ListNotations.

Open Scope Q_scope.

(** ** Data model *)

(** The object returned by [getInputValues]. *)
Record Inputs : Type := mkInputs {
  contractDuration : Z;
  gracePeriod : Z;
  rentIncreaseInterval : Z;
  rentIncreaseRate : Q;
  capitalizationRate : Q;
  landArea : Q;
  buildingFactor : Q;
  constructionCost : Q;
  totalDevelopmentCost : Q
}.

(** One element of [cashFlowData]. *)
Record CashFlow : Type := mkCashFlow {
  year : Z;
  rent : Q;
  discountedCashFlow : Q;
  cumulativeCashFlow : Q
}.

(** The local variables of [calculateNPV] that live across iterations. *)
Record NPVState : Type := mkNPVState {
  currentRent : Q;
  npv : Q;
  cumulative : Q;
  cashFlowData : list CashFlow
}.

(** ** calculateNPV *)

(** [a % b === 0] on integers: the remainder of JavaScript takes the sign of
    the dividend ([Z.rem]); [a % 0] is NaN, which is not [=== 0]. *)
Definition rem_is_zero (a b : Z) : bool :=
  negb (b =? 0)%Z && (Z.rem a b =? 0)%Z.

(** The condition guarding the periodic increase (lines 52-54). *)
Definition increase_due (inputs : Inputs) (y : Z) : bool :=
  (gracePeriod inputs <? y)%Z
  && rem_is_zero (y - gracePeriod inputs - 1) (rentIncreaseInterval inputs)
  && (gracePeriod inputs + 1 <? y)%Z.

(** [Math.pow(1 + inputs.capitalizationRate / 100, year)].  It is 0 only
    for [capitalizationRate = -100]; there the division of [year_step] is
    not the program's (which yields Infinity or NaN), and the statements on
    discounted values assume a positive capitalization rate. *)
Definition discount (inputs : Inputs) (y : Z) : Q :=
  Qpower (1 + capitalizationRate inputs / 100) y.

(** The pair (new [currentRent], [yearlyRent]) of one iteration. *)
Definition rent_step (inputs : Inputs) (y : Z) (cur : Q) : Q * Q :=
  if (gracePeriod inputs <? y)%Z then
    if increase_due inputs y then
      let cur' := cur * (1 + rentIncreaseRate inputs / 100) in (cur', cur')
    else (cur, cur)
  else (cur, 0).

(** The body of the [for] loop, for the year [y]. *)
Definition year_step (inputs : Inputs) (y : Z) (st : NPVState) : NPVState :=
  let '(cur', yearlyRent) := rent_step inputs y (currentRent st) in
  let dcf := yearlyRent / discount inputs y in
  let npv' := npv st + dcf in
  let cumulative' := cumulative st + dcf in
  {| currentRent := cur';
     npv := npv';
     cumulative := cumulative';
     cashFlowData := cashFlowData st ++
       [ {| year := y; rent := yearlyRent;
            discountedCashFlow := dcf;
            cumulativeCashFlow := cumulative' |} ] |}.

(** [n] iterations of the loop, the first one for the year [y]. *)
Fixpoint for_years (inputs : Inputs) (n : nat) (y : Z) (st : NPVState)
  : NPVState :=
  match n with
  | O => st
  | S n' => for_years inputs n' (y + 1)%Z (year_step inputs y st)
  end.

Definition npv_init (annualRent : Q) (inputs : Inputs) : NPVState :=
  {| currentRent := annualRent;
     npv := - totalDevelopmentCost inputs;
     cumulative := - totalDevelopmentCost inputs;
     cashFlowData := [] |}.

(** The loop runs for [year = 1 .. contractDuration], that is
    [contractDuration] times, and not at all when it is below 1. *)
Definition calculateNPV_state (annualRent : Q) (inputs : Inputs) : NPVState :=
  for_years inputs (Z.to_nat (contractDuration inputs)) 1%Z
            (npv_init annualRent inputs).

(** The returned object [{ npv, cashFlowData }]. *)
Definition calculateNPV (annualRent : Q) (inputs : Inputs)
  : Q * list CashFlow :=
  let st := calculateNPV_state annualRent inputs in
  (npv st, cashFlowData st).

(** ** findOptimalRent *)

Definition maxIterations : nat := 50.

(** The [while] loop; [fuel] is [maxIterations - iterations]. *)
Fixpoint search (inputs : Inputs) (fuel : nat) (low high optimalRent : Z)
  : Z :=
  match fuel with
  | O => optimalRent
  | S fuel' =>
      if (1000 <? high - low)%Z then
        let mid := ((low + high) / 2)%Z in
        if Qle_bool 0 (fst (calculateNPV (inject_Z mid) inputs))
        then search inputs fuel' mid high mid
        else search inputs fuel' low mid optimalRent
      else optimalRent
  end.

Definition findOptimalRent (inputs : Inputs) : Z :=
  search inputs maxIterations 0 50000000 0.

(** ** calculatePaybackPeriod *)

(** The scan of the [for] loop from index [i] on; [len] is
    [cashFlowData.length]. *)
Fixpoint payback_scan (rest : list CashFlow) (i len : nat) : nat :=
  match rest with
  | [] => len
  | cf :: rest' =>
      if Qle_bool 0 (cumulativeCashFlow cf) then S i
      else payback_scan rest' (S i) len
  end.

Definition calculatePaybackPeriod (data : list CashFlow) : nat :=
  payback_scan data 0 (length data).

(** ** calculateAnnualReturn *)

Definition calculateAnnualReturn (optimalRent totalCost : Q) : Q :=
  if Qeq_bool totalCost 0 then 0 else (optimalRent / totalCost) * 100.

(** The default values of the form, Scenario A of the specification. *)
Definition scenarioA : Inputs :=
  {| contractDuration := 20; gracePeriod := 2; rentIncreaseInterval := 5;
     rentIncreaseRate := 10; capitalizationRate := 7;
     landArea := 10000; buildingFactor := 5 # 2; constructionCost := 2000;
     totalDevelopmentCost := 93480000 |}.

(** ** The page and the entry point [calculateOptimalRent] *)

(** A number field of the form as [parseFloat] reads it; [None] is NaN
    (an empty or unreadable field). *)
Record Form : Type := mkForm {
  f_contractDuration : option Z;
  f_gracePeriod : option Z;
  f_rentIncreaseInterval : option Z;
  f_rentIncreaseRate : option Q;
  f_capitalizationRate : option Q;
  f_landArea : option Q;
  f_buildingFactor : option Q;
  f_constructionCost : option Q;
  f_totalDevelopmentCost : option Q
}.

(** [parseFloat(v) || d]: NaN and 0 are falsy and give the default. *)
Definition or_default_Z (v : option Z) (d : Z) : Z :=
  match v with
  | Some x => if (x =? 0)%Z then d else x
  | None => d
  end.

Definition or_default_Q (v : option Q) (d : Q) : Q :=
  match v with
  | Some x => if Qeq_bool x 0 then d else x
  | None => d
  end.

Definition getInputValues (f : Form) : Inputs :=
  {| contractDuration := or_default_Z (f_contractDuration f) 20;
     gracePeriod := or_default_Z (f_gracePeriod f) 2;
     rentIncreaseInterval := or_default_Z (f_rentIncreaseInterval f) 5;
     rentIncreaseRate := or_default_Q (f_rentIncreaseRate f) 10;
     capitalizationRate := or_default_Q (f_capitalizationRate f) 7;
     landArea := or_default_Q (f_landArea f) 10000;
     buildingFactor := or_default_Q (f_buildingFactor f) (5 # 2);
     constructionCost := or_default_Q (f_constructionCost f) 2000;
     totalDevelopmentCost := or_default_Q (f_totalDevelopmentCost f) 93480000 |}.

(** The two messages of the validation. *)
Inductive Alert : Type :=
| AlertDevelopmentCost
| AlertContractDuration.

(** What the entry point does that can be observed, in order: alerts, the
    calls of the search and of the projection, and the writes to the page
    (the numbers written, before their formatting). *)
Inductive Event : Type :=
| Alerted (a : Alert)
| CalledFindOptimalRent (inputs : Inputs)
| CalledCalculateNPV (annualRent : Q) (inputs : Inputs)
| ResultsShown (optimalRent : Z) (npvValue : Q) (paybackPeriod : nat)
               (annualReturn : Q)
| TableShown (data : list CashFlow)
| SliderShown (maxValue currentValue : Q)
| InteractiveShown (currentValue npvValue : Q)
| ConsoleLogged (optimalRent : Z) (npvValue : Q) (paybackPeriod : nat)
                (annualReturn : Q).

(** The page: the form, the range control and the trace of events.  A
    range control does not keep the number assigned to its value as it is:
    it brings it into its range and onto its step.  That behaviour belongs
    to the browser, not to the program; it is the field [sliderControl],
    which gives the value the control holds after its [max] and then its
    [value] were assigned. *)
Record Page : Type := mkPage {
  form : Form;
  sliderControl : Q -> Q -> Q;
  sliderMax : Q;
  sliderValue : Q;
  trace : list Event
}.

Definition emit (e : Event) (pg : Page) : Page :=
  {| form := form pg; sliderControl := sliderControl pg;
     sliderMax := sliderMax pg; sliderValue := sliderValue pg;
     trace := trace pg ++ [e] |}.

Definition updateResults (optimalRent : Z) (npvValue : Q) (payback : nat)
  (annualReturn : Q) (pg : Page) : Page :=
  emit (ResultsShown optimalRent npvValue payback annualReturn) pg.

Definition updateCashFlowTable (data : list CashFlow) (pg : Page) : Page :=
  emit (TableShown data) pg.

(** [slider.max = maxValue * 1.5; slider.value = maxValue;] and the two
    texts under the control. *)
Definition updateSlider (maxValue : Q) (pg : Page) : Page :=
  let pg' := {| form := form pg; sliderControl := sliderControl pg;
                sliderMax := maxValue * (3 # 2);
                sliderValue :=
                  sliderControl pg (maxValue * (3 # 2)) maxValue;
                trace := trace pg |} in
  emit (SliderShown (maxValue * (3 # 2)) maxValue) pg'.

(** [updateRentValue] reads the value the control holds. *)
Definition updateRentValue (pg : Page) : Page :=
  let currentValue := sliderValue pg in
  let inputs := getInputValues (form pg) in
  let pg1 := emit (CalledCalculateNPV currentValue inputs) pg in
  emit (InteractiveShown currentValue (fst (calculateNPV currentValue inputs)))
       pg1.

(** The main function.  No operation of the model throws, so the [catch]
    branch has no counterpart. *)
Definition calculateOptimalRent (pg : Page) : Page :=
  let inputs := getInputValues (form pg) in
  if Qle_bool (totalDevelopmentCost inputs) 0 then
    emit (Alerted AlertDevelopmentCost) pg
  else if (contractDuration inputs <=? 0)%Z then
    emit (Alerted AlertContractDuration) pg
  else
    let pg1 := emit (CalledFindOptimalRent inputs) pg in
    let optimalRent := findOptimalRent inputs in
    let pg2 := emit (CalledCalculateNPV (inject_Z optimalRent) inputs) pg1 in
    let '(npvValue, data) := calculateNPV (inject_Z optimalRent) inputs in
    let paybackPeriod := calculatePaybackPeriod data in
    let annualReturn :=
      calculateAnnualReturn (inject_Z optimalRent)
                            (totalDevelopmentCost inputs) in
    let pg3 := updateResults optimalRent npvValue paybackPeriod annualReturn
                             pg2 in
    let pg4 := updateCashFlowTable data pg3 in
    let pg5 := updateSlider (inject_Z optimalRent) pg4 in
    let pg6 := updateRentValue pg5 in
    emit (ConsoleLogged optimalRent npvValue paybackPeriod annualReturn) pg6.

(** ** Validity of the parameters (section 3 of the specification) *)

Definition valid_params (inputs : Inputs) : Prop :=
  (1 <= contractDuration inputs)%Z /\
  (0 <= gracePeriod inputs)%Z /\
  (1 <= rentIncreaseInterval inputs)%Z /\
  0 <= rentIncreaseRate inputs /\
  0 < capitalizationRate inputs /\
  0 < totalDevelopmentCost inputs.

(** The multiplier of one increase, [1 + inputs.rentIncreaseRate / 100]. *)
Definition increase_factor (inputs : Inputs) : Q :=
  1 + rentIncreaseRate inputs / 100.

(** The state after the first [k] iterations of the loop of
    [calculateNPV]. *)
Definition run (annualRent : Q) (inputs : Inputs) (k : nat) : NPVState :=
  for_years inputs k 1%Z (npv_init annualRent inputs).

(** The entry added by the iteration for the year [y] from the state
    [st]. *)
Definition entry_of (inputs : Inputs) (y : Z) (st : NPVState) : CashFlow :=
  let yearlyRent := snd (rent_step inputs y (currentRent st)) in
  let dcf := yearlyRent / discount inputs y in
  {| year := y; rent := yearlyRent; discountedCashFlow := dcf;
     cumulativeCashFlow := cumulative st + dcf |}.

(** The running total before the entry of index [i] of a schedule: the
    seed [- totalDevelopmentCost] for the first entry, the cumulative cash
    flow of the entry before it otherwise. *)
Definition cumulative_before (inputs : Inputs) (schedule : list CashFlow)
  (i : nat) : Q :=
  match i with
  | O => - totalDevelopmentCost inputs
  | S j =>
      match nth_error schedule j with
      | Some e => cumulativeCashFlow e
      | None => - totalDevelopmentCost inputs
      end
  end.

(** The loop of [findOptimalRent] over an arbitrary feasibility test of
    the midpoint; [search] is this loop at the test [npv >= 0] of the
    program (lemma [search_bisect]). *)
Fixpoint bisect (feasible : Z -> bool) (fuel : nat)
  (low high optimalRent : Z) : Z :=
  match fuel with
  | O => optimalRent
  | S fuel' =>
      if (1000 <? high - low)%Z then
        let mid := ((low + high) / 2)%Z in
        if feasible mid
        then bisect feasible fuel' mid high mid
        else bisect feasible fuel' low mid optimalRent
      else optimalRent
  end.

Definition npv_feasible (inputs : Inputs) (mid : Z) : bool :=
  Qle_bool 0 (fst (calculateNPV (inject_Z mid) inputs)).

(** A form whose fields are all empty, and pages built on it. *)
Definition empty_form : Form :=
  mkForm None None None None None None None None None.

(** The range control of [index.html] ([min="0"], [step="100000"]): a
    value is brought into [[0, max]] and then to the nearest multiple of
    the step that is not above [max], the upper one when two are as near. *)
Definition range_control (max value : Q) : Q :=
  let below := if Qle_bool 0 max
               then (if Qle_bool value max then value else max)
               else value in
  let inside := if Qle_bool 0 below then below else 0 in
  let nearest :=
    inject_Z (100000 * Qfloor (inside / 100000 + (1 # 2))) in
  if Qle_bool 0 max && negb (Qle_bool nearest max)
  then nearest - 100000 else nearest.

(** The page as [index.html] declares it, with the form [f]. *)
Definition page_of (f : Form) : Page :=
  {| form := f; sliderControl := range_control;
     sliderMax := 10000000; sliderValue := 0; trace := [] |}.

(** ** toArabicNumbers *)

(** A string is the sequence of its UTF-16 code units.  [arabicNums] holds
    the code units of the ten Arabic-Indic digits, U+0660 to U+0669. *)
Definition arabicNums : list N :=
  [1632; 1633; 1634; 1635; 1636; 1637; 1638; 1639; 1640; 1641]%N.

(** The class [[0-9]] of the regular expression. *)
Definition is_ascii_digit (w : N) : bool := (48 <=? w)%N && (w <=? 57)%N.

(** The callback of [replace]: [arabicNums[+w]]. *)
Definition arabic_digit (w : N) : N := nth (N.to_nat (w - 48)) arabicNums w.

(** [toArabicNumbers], from the string [num.toString()] on: every match of
    [/[0-9]/g] is replaced, the other code units are kept. *)
Definition toArabicNumbers (s : list N) : list N :=
  map (fun w => if is_ascii_digit w then arabic_digit w else w) s.

(** ** exportResults *)

(** The object [results] built by [exportResults]; [timestamp] is the text
    of [new Date().toISOString()], taken as given.  The serialization and
    the download that follow are not modelled. *)
Record ExportedNumbers : Type := mkExportedNumbers {
  exp_optimalRent : Z;
  exp_npv : Q;
  exp_paybackPeriod : nat;
  exp_annualReturn : Q
}.

Record Exported : Type := mkExported {
  exp_inputs : Inputs;
  exp_results : ExportedNumbers;
  exp_cashFlowData : list CashFlow;
  exp_timestamp : list N
}.

Definition exportResults (timestamp : list N) (pg : Page) : Exported :=
  let inputs := getInputValues (form pg) in
  let optimalRent := findOptimalRent inputs in
  let '(npvValue, data) := calculateNPV (inject_Z optimalRent) inputs in
  {| exp_inputs := inputs;
     exp_results :=
       {| exp_optimalRent := optimalRent;
          exp_npv := npvValue;
          exp_paybackPeriod := calculatePaybackPeriod data;
          exp_annualReturn :=
            calculateAnnualReturn (inject_Z optimalRent)
                                  (totalDevelopmentCost inputs) |};
     exp_cashFlowData := data;
     exp_timestamp := timestamp |}.

(** ** Auxiliary notions for the statements *)

(** The same lease with another contract duration. *)
Definition with_duration (inputs : Inputs) (d : Z) : Inputs :=
  {| contractDuration := d;
     gracePeriod := gracePeriod inputs;
     rentIncreaseInterval := rentIncreaseInterval inputs;
     rentIncreaseRate := rentIncreaseRate inputs;
     capitalizationRate := capitalizationRate inputs;
     landArea := landArea inputs;
     buildingFactor := buildingFactor inputs;
     constructionCost := constructionCost inputs;
     totalDevelopmentCost := totalDevelopmentCost inputs |}.

(** The present value of the rents of a lease per unit of annual rent:
    the NPV of an annual rent of 1, without the development cost. *)
Definition unit_value (inputs : Inputs) : Q :=
  fst (calculateNPV 1 inputs) + totalDevelopmentCost inputs.

(** * Structure of the loop *)

Lemma year_step_data inputs y st :
  cashFlowData (year_step inputs y st)
  = cashFlowData st ++ [entry_of inputs y st].
Proof.
  unfold year_step, entry_of.
  destruct (rent_step inputs y (currentRent st)) as [c r]. reflexivity.
Qed.

Lemma year_step_current inputs y st :
  currentRent (year_step inputs y st)
  = fst (rent_step inputs y (currentRent st)).
Proof.
  unfold year_step.
  destruct (rent_step inputs y (currentRent st)) as [c r]. reflexivity.
Qed.

Lemma year_step_cumulative inputs y st :
  cumulative (year_step inputs y st)
  = cumulative st + discountedCashFlow (entry_of inputs y st).
Proof.
  unfold year_step, entry_of.
  destruct (rent_step inputs y (currentRent st)) as [c r]. reflexivity.
Qed.

Lemma year_step_npv inputs y st :
  npv (year_step inputs y st)
  = npv st + discountedCashFlow (entry_of inputs y st).
Proof.
  unfold year_step, entry_of.
  destruct (rent_step inputs y (currentRent st)) as [c r]. reflexivity.
Qed.

Lemma for_years_last inputs n :
  forall y st,
    for_years inputs (S n) y st
    = year_step inputs (y + Z.of_nat n)%Z (for_years inputs n y st).
Proof.
  induction n as [|n IH]; intros y st.
  - cbn [for_years]. now rewrite Z.add_0_r.
  - change (for_years inputs (S (S n)) y st)
      with (for_years inputs (S n) (y + 1)%Z (year_step inputs y st)).
    rewrite IH. cbn [for_years].
    now replace (y + 1 + Z.of_nat n)%Z with (y + Z.of_nat (S n))%Z by lia.
Qed.

Lemma run_S annualRent inputs k :
  run annualRent inputs (S k)
  = year_step inputs (Z.of_nat k + 1)%Z (run annualRent inputs k).
Proof.
  unfold run. rewrite for_years_last. f_equal. lia.
Qed.

Lemma run_length annualRent inputs k :
  length (cashFlowData (run annualRent inputs k)) = k.
Proof.
  induction k as [|k IH]; [reflexivity|].
  rewrite run_S, year_step_data, length_app, IH. cbn. lia.
Qed.

Lemma run_npv_cumulative annualRent inputs k :
  npv (run annualRent inputs k) = cumulative (run annualRent inputs k).
Proof.
  induction k as [|k IH]; [reflexivity|].
  now rewrite run_S, year_step_npv, year_step_cumulative, IH.
Qed.

(** Reading the [i]-th entry of a list that grew by one element. *)
Lemma nth_error_snoc {A} (l : list A) (a x : A) (i : nat) :
  nth_error (l ++ [a]) i = Some x ->
  (i < length l)%nat /\ nth_error l i = Some x \/ i = length l /\ x = a.
Proof.
  intros H. destruct (Nat.lt_ge_cases i (length l)) as [Hlt|Hge].
  - left. split; [assumption|]. now rewrite nth_error_app1 in H.
  - right. rewrite nth_error_app2 in H by assumption.
    assert (Hi : (i - length l < 1)%nat).
    { apply (proj1 (nth_error_Some [a] (i - length l))). congruence. }
    assert (i = length l) by lia. subst i.
    rewrite Nat.sub_diag in H. cbn in H. split; congruence.
Qed.

(** The [i]-th entry of the schedule is the one written by the iteration
    [i + 1], from the state the loop had reached before it. *)
Lemma run_nth annualRent inputs k :
  forall i e,
    nth_error (cashFlowData (run annualRent inputs k)) i = Some e ->
    (i < k)%nat /\
    e = entry_of inputs (Z.of_nat i + 1)%Z (run annualRent inputs i).
Proof.
  induction k as [|k IH]; intros i e H.
  - destruct i; discriminate.
  - rewrite run_S, year_step_data in H.
    apply nth_error_snoc in H. rewrite run_length in H.
    destruct H as [[Hlt H]|[-> ->]].
    + destruct (IH _ _ H) as [_ ->]. split; [lia|reflexivity].
    + split; [lia|reflexivity].
Qed.

Lemma run_nth_exists annualRent inputs k i :
  (i < k)%nat ->
  nth_error (cashFlowData (run annualRent inputs k)) i
  = Some (entry_of inputs (Z.of_nat i + 1)%Z (run annualRent inputs i)).
Proof.
  intros Hlt.
  destruct (nth_error (cashFlowData (run annualRent inputs k)) i) as [e|] eqn:E.
  - now destruct (run_nth _ _ _ _ _ E) as [_ ->].
  - apply nth_error_None in E. rewrite run_length in E. lia.
Qed.

Lemma entry_of_year inputs y st : year (entry_of inputs y st) = y.
Proof. reflexivity. Qed.

Lemma entry_of_cumulative inputs y st :
  cumulativeCashFlow (entry_of inputs y st)
  = cumulative st + discountedCashFlow (entry_of inputs y st).
Proof. reflexivity. Qed.

Lemma run_S_cumulative annualRent inputs k :
  cumulative (run annualRent inputs (S k))
  = cumulativeCashFlow
      (entry_of inputs (Z.of_nat k + 1)%Z (run annualRent inputs k)).
Proof. now rewrite run_S, year_step_cumulative. Qed.

(** * The projection result is well formed *)

(** C6: for valid parameters the schedule of [calculateNPV] has
    [contractDuration] entries, numbered 1, 2, ... in order; the cumulative
    cash flow of every entry is the one of the entry before it (the seed
    [- totalDevelopmentCost] for the first) plus its own discounted cash
    flow; and the returned [npv] is the cumulative cash flow of the last
    entry. *)
Theorem calculateNPV_well_formed (annualRent : Q) (inputs : Inputs) :
  valid_params inputs ->
  let schedule := snd (calculateNPV annualRent inputs) in
  Z.of_nat (length schedule) = contractDuration inputs /\
  (forall i e, nth_error schedule i = Some e -> year e = (Z.of_nat i + 1)%Z) /\
  (forall i e, nth_error schedule i = Some e ->
     cumulativeCashFlow e
     = cumulative_before inputs schedule i + discountedCashFlow e) /\
  (exists e, nth_error schedule (length schedule - 1) = Some e /\
             fst (calculateNPV annualRent inputs) = cumulativeCashFlow e).
Proof.
  intros (Hd & _). cbv zeta. unfold calculateNPV. cbn [fst snd].
  change (calculateNPV_state annualRent inputs)
    with (run annualRent inputs (Z.to_nat (contractDuration inputs))).
  set (k := Z.to_nat (contractDuration inputs)).
  assert (Hk : (1 <= k)%nat) by (unfold k; lia).
  rewrite run_length. repeat split.
  - unfold k; lia.
  - intros i e H. now destruct (run_nth _ _ _ _ _ H) as [_ ->].
  - intros i e H. destruct (run_nth _ _ _ _ _ H) as [Hi ->].
    rewrite entry_of_cumulative. f_equal.
    destruct i as [|j]; [reflexivity|].
    cbn [cumulative_before].
    rewrite run_nth_exists by lia. now rewrite run_S_cumulative.
  - destruct k as [|k']; [lia|].
    exists (entry_of inputs (Z.of_nat k' + 1)%Z (run annualRent inputs k')).
    split.
    + rewrite run_nth_exists by lia. f_equal. f_equal; f_equal; lia.
    + now rewrite run_npv_cumulative, run_S_cumulative.
Qed.

(** The default values of the form are valid, and the theorem applies to
    them. *)
Lemma scenarioA_valid : valid_params scenarioA.
Proof.
  unfold valid_params, scenarioA, Qle, Qlt; cbn. lia.
Defined.

Lemma calculateNPV_well_formed_witness :
  let schedule := snd (calculateNPV 1000000 scenarioA) in
  Z.of_nat (length schedule) = contractDuration scenarioA /\
  (forall i e, nth_error schedule i = Some e -> year e = (Z.of_nat i + 1)%Z) /\
  (forall i e, nth_error schedule i = Some e ->
     cumulativeCashFlow e
     = cumulative_before scenarioA schedule i + discountedCashFlow e) /\
  (exists e, nth_error schedule (length schedule - 1) = Some e /\
             fst (calculateNPV 1000000 scenarioA) = cumulativeCashFlow e).
Proof. exact (calculateNPV_well_formed 1000000 scenarioA scenarioA_valid). Defined.

(** * Arithmetic of one iteration *)

Lemma increase_factor_ge_1 inputs :
  0 <= rentIncreaseRate inputs -> 1 <= increase_factor inputs.
Proof.
  intros H. unfold increase_factor.
  assert (0 <= rentIncreaseRate inputs / 100).
  { apply Qle_shift_div_l; lra. }
  lra.
Qed.

Lemma discount_pos inputs y :
  0 < capitalizationRate inputs -> 0 < discount inputs y.
Proof.
  intros H. unfold discount. apply Qpower_0_lt.
  assert (0 <= capitalizationRate inputs / 100).
  { apply Qle_shift_div_l; lra. }
  lra.
Qed.

Lemma Qdiv_0_l d : 0 / d == 0.
Proof. unfold Qdiv. apply Qmult_0_l. Qed.

Lemma Qdiv_le_compat x y d : 0 < d -> x <= y -> x / d <= y / d.
Proof.
  intros Hd Hxy. unfold Qdiv. apply Qmult_le_compat_r; [assumption|].
  apply Qinv_le_0_compat. lra.
Qed.

Lemma Qdiv_nonneg x d : 0 < d -> 0 <= x -> 0 <= x / d.
Proof.
  intros Hd Hx. apply Qle_shift_div_l; [assumption|]. lra.
Qed.

(** The rent of a year of the grace period is the literal [0]. *)
Lemma rent_step_grace inputs y cur :
  (y <= gracePeriod inputs)%Z -> rent_step inputs y cur = (cur, 0).
Proof.
  intros H. unfold rent_step.
  destruct (Z.ltb_spec (gracePeriod inputs) y); [lia|reflexivity].
Qed.

(** After the grace period the rent charged is the running rent as the
    iteration leaves it. *)
Lemma rent_step_charged inputs y cur :
  (gracePeriod inputs < y)%Z ->
  snd (rent_step inputs y cur) = fst (rent_step inputs y cur).
Proof.
  intros H. unfold rent_step.
  destruct (Z.ltb_spec (gracePeriod inputs) y); [|lia].
  now destruct (increase_due inputs y).
Qed.

(** The running rent is either kept or multiplied by the factor. *)
Lemma rent_step_fst inputs y cur :
  fst (rent_step inputs y cur)
  = if increase_due inputs y then cur * increase_factor inputs else cur.
Proof.
  unfold rent_step, increase_due, increase_factor.
  destruct (gracePeriod inputs <? y)%Z; cbn [andb]; [|reflexivity].
  now destruct (_ && _).
Qed.

Lemma rent_step_mono inputs y c1 c2 :
  0 <= increase_factor inputs -> c1 <= c2 ->
  fst (rent_step inputs y c1) <= fst (rent_step inputs y c2) /\
  snd (rent_step inputs y c1) <= snd (rent_step inputs y c2).
Proof.
  intros Hf Hc. unfold rent_step. fold (increase_factor inputs).
  destruct (gracePeriod inputs <? y)%Z; cbn [fst snd].
  - destruct (increase_due inputs y); cbn [fst snd]; split;
      try assumption; now apply Qmult_le_compat_r.
  - split; [assumption|lra].
Qed.

Lemma rent_step_zero inputs y c :
  c == 0 ->
  fst (rent_step inputs y c) == 0 /\ snd (rent_step inputs y c) == 0.
Proof.
  intros Hc. unfold rent_step.
  destruct (gracePeriod inputs <? y)%Z; cbn [fst snd].
  - destruct (increase_due inputs y); cbn [fst snd]; split;
      try assumption; rewrite Hc; apply Qmult_0_l.
  - split; [assumption|reflexivity].
Qed.

(** * Zero rent *)

Lemma run_zero_rent inputs k :
  currentRent (run 0 inputs k) == 0 /\
  npv (run 0 inputs k) == - totalDevelopmentCost inputs.
Proof.
  induction k as [|k [IHc IHn]].
  - split; reflexivity.
  - rewrite run_S, year_step_current, year_step_npv.
    destruct (rent_step_zero inputs (Z.of_nat k + 1)%Z _ IHc) as [Hf Hs].
    split; [assumption|].
    unfold entry_of; cbn [discountedCashFlow].
    rewrite Hs, Qdiv_0_l, IHn. ring.
Qed.

(** C5: for valid parameters the NPV of a zero rent is exactly the negated
    development cost. *)
Theorem zero_rent_npv (inputs : Inputs) :
  valid_params inputs ->
  fst (calculateNPV 0 inputs) == - totalDevelopmentCost inputs.
Proof.
  intros _. unfold calculateNPV; cbn [fst].
  apply (run_zero_rent inputs (Z.to_nat (contractDuration inputs))).
Qed.

Lemma zero_rent_npv_witness :
  fst (calculateNPV 0 scenarioA) == - totalDevelopmentCost scenarioA.
Proof. exact (zero_rent_npv scenarioA scenarioA_valid). Defined.

(** * Monotonicity in the rent *)

Lemma year_step_mono inputs y st1 st2 :
  0 <= increase_factor inputs -> 0 < discount inputs y ->
  currentRent st1 <= currentRent st2 -> npv st1 <= npv st2 ->
  currentRent (year_step inputs y st1) <= currentRent (year_step inputs y st2)
  /\ npv (year_step inputs y st1) <= npv (year_step inputs y st2).
Proof.
  intros Hf Hd Hc Hn.
  rewrite !year_step_current, !year_step_npv.
  destruct (rent_step_mono inputs y _ _ Hf Hc) as [H1 H2].
  split; [assumption|].
  unfold entry_of; cbn [discountedCashFlow].
  pose proof (Qdiv_le_compat _ _ _ Hd H2). lra.
Qed.

Lemma for_years_mono inputs n :
  0 <= increase_factor inputs -> 0 < capitalizationRate inputs ->
  forall y st1 st2,
    currentRent st1 <= currentRent st2 -> npv st1 <= npv st2 ->
    npv (for_years inputs n y st1) <= npv (for_years inputs n y st2).
Proof.
  intros Hf Hcap. induction n as [|n IH]; intros y st1 st2 Hc Hn.
  - assumption.
  - cbn [for_years].
    destruct (year_step_mono inputs y st1 st2 Hf (discount_pos _ y Hcap) Hc Hn).
    now apply IH.
Qed.

(** The NPV does not decrease with the rent as soon as the factor of the
    increases is non-negative and the capitalization rate positive. *)
Lemma calculateNPV_mono inputs r1 r2 :
  0 <= increase_factor inputs -> 0 < capitalizationRate inputs ->
  r1 <= r2 ->
  fst (calculateNPV r1 inputs) <= fst (calculateNPV r2 inputs).
Proof.
  intros Hf Hcap Hr.
  unfold calculateNPV, calculateNPV_state; cbn [fst].
  apply for_years_mono; try assumption. cbn. lra.
Qed.

Lemma valid_params_mono inputs r1 r2 :
  valid_params inputs -> r1 <= r2 ->
  fst (calculateNPV r1 inputs) <= fst (calculateNPV r2 inputs).
Proof.
  intros (_ & _ & _ & Hrate & Hcap & _) Hr.
  apply calculateNPV_mono; try assumption.
  pose proof (increase_factor_ge_1 _ Hrate). lra.
Qed.

(** C4: for valid parameters the NPV does not decrease when the candidate
    rent grows. *)
Theorem npv_monotone (inputs : Inputs) (r1 r2 : Q) :
  valid_params inputs -> r1 <= r2 ->
  fst (calculateNPV r1 inputs) <= fst (calculateNPV r2 inputs).
Proof. exact (valid_params_mono inputs r1 r2). Qed.

Lemma npv_monotone_witness :
  fst (calculateNPV 1000000 scenarioA) <= fst (calculateNPV 2000000 scenarioA).
Proof.
  apply (npv_monotone scenarioA 1000000 2000000 scenarioA_valid).
  unfold Qle; cbn; lia.
Defined.

(** * Grace period *)

Lemma entry_of_grace inputs y st :
  (y <= gracePeriod inputs)%Z -> rent (entry_of inputs y st) = 0.
Proof.
  intros H. unfold entry_of; cbn [rent]. now rewrite rent_step_grace.
Qed.

(** While the loop is inside the grace period nothing is added to the
    NPV. *)
Lemma run_grace_npv annualRent inputs k :
  (Z.of_nat k <= gracePeriod inputs)%Z ->
  npv (run annualRent inputs k) == - totalDevelopmentCost inputs.
Proof.
  induction k as [|k IH]; intros Hk.
  - reflexivity.
  - rewrite run_S, year_step_npv.
    unfold entry_of; cbn [discountedCashFlow].
    rewrite rent_step_grace by lia. cbn [snd].
    rewrite Qdiv_0_l, IH by lia. ring.
Qed.

(** A search none of whose midpoints is feasible keeps the rent it started
    with. *)
Lemma search_infeasible inputs :
  (forall m, fst (calculateNPV (inject_Z m) inputs) < 0) ->
  forall fuel low high optimalRent,
    search inputs fuel low high optimalRent = optimalRent.
Proof.
  intros Hneg. induction fuel as [|fuel IH]; intros low high opt.
  - reflexivity.
  - cbn [search]. destruct (1000 <? high - low)%Z; [|reflexivity].
    destruct (Qle_bool 0 _) eqn:E.
    + apply Qle_bool_iff in E. specialize (Hneg ((low + high) / 2)%Z). lra.
    + apply IH.
Qed.

(** C7: for valid parameters every entry of a year of the grace period has
    rent 0; and when the grace period covers the whole contract, the NPV is
    the negated development cost whatever the rent, and [findOptimalRent]
    returns 0. *)
Theorem grace_period_no_rent (annualRent : Q) (inputs : Inputs) :
  valid_params inputs ->
  (forall e, In e (snd (calculateNPV annualRent inputs)) ->
             (year e <= gracePeriod inputs)%Z -> rent e = 0) /\
  ((contractDuration inputs <= gracePeriod inputs)%Z ->
   (forall r, fst (calculateNPV r inputs) == - totalDevelopmentCost inputs) /\
   findOptimalRent inputs = 0%Z).
Proof.
  intros (Hd & Hg & _ & _ & _ & Hcost). split.
  - intros e Hin Hy. apply In_nth_error in Hin. destruct Hin as [i Hi].
    unfold calculateNPV, calculateNPV_state in Hi; cbn [snd] in Hi.
    destruct (run_nth _ _ _ _ _ Hi) as [_ ->].
    apply entry_of_grace. exact Hy.
  - intros Hdg.
    assert (Hall : forall r,
               fst (calculateNPV r inputs) == - totalDevelopmentCost inputs).
    { intros r. unfold calculateNPV; cbn [fst].
      apply (run_grace_npv r inputs). lia. }
    split; [exact Hall|].
    unfold findOptimalRent. apply search_infeasible.
    intros m. rewrite Hall. lra.
Qed.

(** A lease whose grace period covers the whole contract. *)
Lemma grace_period_no_rent_witness :
  let inputs := mkInputs 5 5 5 10 7 10000 (5 # 2) 2000 93480000 in
  (forall e, In e (snd (calculateNPV 1000000 inputs)) ->
             (year e <= gracePeriod inputs)%Z -> rent e = 0) /\
  (forall r, fst (calculateNPV r inputs) == - totalDevelopmentCost inputs) /\
  findOptimalRent inputs = 0%Z.
Proof.
  cbv zeta.
  destruct (grace_period_no_rent 1000000
              (mkInputs 5 5 5 10 7 10000 (5 # 2) 2000 93480000)) as [H1 H2].
  - unfold valid_params, Qle, Qlt; cbn. lia.
  - split; [exact H1|]. apply H2. cbn. lia.
Defined.

(** * The search *)

Lemma search_bisect inputs fuel :
  forall low high optimalRent,
    search inputs fuel low high optimalRent
    = bisect (npv_feasible inputs) fuel low high optimalRent.
Proof.
  induction fuel as [|fuel IH]; intros low high opt; [reflexivity|].
  cbn [search bisect]. unfold npv_feasible at 1.
  now rewrite !IH.
Qed.

(** Once every rent from [m0] on is feasible, the loop takes the upper half
    at every step, whatever the test is below [m0]. *)
Lemma bisect_upper_half feasible m0 :
  (forall m, (m0 <= m)%Z -> feasible m = true) ->
  forall fuel low high optimalRent,
    (m0 <= (low + high) / 2)%Z -> (low <= high)%Z ->
    bisect feasible fuel low high optimalRent
    = bisect (fun _ => true) fuel low high optimalRent.
Proof.
  intros Hf. induction fuel as [|fuel IH]; intros low high opt Hm Hlh.
  - reflexivity.
  - cbn [bisect]. destruct (1000 <? high - low)%Z; [|reflexivity].
    rewrite Hf by assumption.
    assert (low <= (low + high) / 2 <= high)%Z.
    { split; [apply Z.div_le_lower_bound|apply Z.div_le_upper_bound]; lia. }
    apply IH; [|lia].
    apply Z.div_le_lower_bound; lia.
Qed.

(** Once no rent up to [m0] is feasible, the loop takes the lower half at
    every step and keeps the rent it started with. *)
Lemma bisect_lower_half feasible m0 :
  (forall m, (m <= m0)%Z -> feasible m = false) ->
  forall fuel low high optimalRent,
    (high <= m0)%Z -> (low <= high)%Z ->
    bisect feasible fuel low high optimalRent = optimalRent.
Proof.
  intros Hf. induction fuel as [|fuel IH]; intros low high opt Hm Hlh.
  - reflexivity.
  - cbn [bisect]. destruct (1000 <? high - low)%Z; [|reflexivity].
    assert (low <= (low + high) / 2 <= high)%Z.
    { split; [apply Z.div_le_lower_bound|apply Z.div_le_upper_bound]; lia. }
    rewrite Hf by lia. apply IH; lia.
Qed.

Lemma bisect_S feasible fuel low high optimalRent :
  bisect feasible (S fuel) low high optimalRent
  = if (1000 <? high - low)%Z then
      if feasible ((low + high) / 2)%Z
      then bisect feasible fuel ((low + high) / 2) high ((low + high) / 2)
      else bisect feasible fuel low ((low + high) / 2) optimalRent
    else optimalRent.
Proof. reflexivity. Qed.

(** The first iteration probes 25,000,000. *)
Lemma bisect_first_step feasible :
  bisect feasible maxIterations 0 50000000 0
  = if feasible 25000000%Z
    then bisect feasible 49 25000000 50000000 25000000
    else bisect feasible 49 0 25000000 0.
Proof.
  change maxIterations with (S 49). rewrite bisect_S.
  change (1000 <? 50000000 - 0)%Z with true.
  change ((0 + 50000000) / 2)%Z with 25000000%Z.
  reflexivity.
Qed.

Lemma npv_feasible_mono inputs m1 m2 :
  valid_params inputs -> (m1 <= m2)%Z ->
  npv_feasible inputs m1 = true -> npv_feasible inputs m2 = true.
Proof.
  unfold npv_feasible. intros Hv Hm H.
  apply Qle_bool_iff in H. apply Qle_bool_iff.
  apply Qle_trans with (1 := H). apply valid_params_mono; [assumption|].
  rewrite <- Zle_Qle. exact Hm.
Qed.

(** X3: for valid parameters [findOptimalRent] has two possible results: when
    the first midpoint 25,000,000 is feasible so is every later one, and the
    loop climbs to 49,999,237, the last midpoint below the upper bound;
    otherwise no midpoint is feasible and the result is 0. *)
Lemma findOptimalRent_two_values inputs :
  valid_params inputs ->
  findOptimalRent inputs
  = if npv_feasible inputs 25000000 then 49999237%Z else 0%Z.
Proof.
  intros Hv. unfold findOptimalRent.
  rewrite search_bisect, bisect_first_step.
  destruct (npv_feasible inputs 25000000) eqn:E.
  - rewrite (bisect_upper_half (npv_feasible inputs) 25000000).
    + vm_compute. reflexivity.
    + intros m Hm. now apply (npv_feasible_mono inputs 25000000 m).
    + vm_compute. discriminate.
    + lia.
  - apply (bisect_lower_half (npv_feasible inputs) 25000000); try lia.
    intros m Hm. destruct (npv_feasible inputs m) eqn:Em; [|reflexivity].
    rewrite (npv_feasible_mono inputs m 25000000 Hv Hm Em) in E.
    discriminate.
Qed.

(** * The escalation schedule *)

Lemma div_step_due a i :
  (1 <= a)%Z -> (1 <= i)%Z -> (a mod i = 0)%Z ->
  (a / i = (a - 1) / i + 1)%Z.
Proof. intros. Z.div_mod_to_equations. nia. Qed.

Lemma div_step_not_due a i :
  (1 <= a)%Z -> (1 <= i)%Z -> (a mod i <> 0)%Z ->
  (a / i = (a - 1) / i)%Z.
Proof. intros. Z.div_mod_to_equations. nia. Qed.

(** For valid parameters the guard of the increase is the test of the
    specification. *)
Lemma increase_due_valid inputs y :
  valid_params inputs ->
  increase_due inputs y
  = (gracePeriod inputs + 1 <? y)%Z
    && ((y - gracePeriod inputs - 1) mod rentIncreaseInterval inputs =? 0)%Z.
Proof.
  intros (_ & Hg & Hi & _). unfold increase_due, rem_is_zero.
  destruct (Z.ltb_spec (gracePeriod inputs + 1) y) as [H1|H1].
  - destruct (Z.ltb_spec (gracePeriod inputs) y); [|lia].
    destruct (Z.eqb_spec (rentIncreaseInterval inputs) 0); [lia|].
    rewrite Z.rem_mod_nonneg by lia. cbn. now rewrite andb_true_r.
  - now rewrite andb_false_r.
Qed.

(** The running rent after [k] iterations, in closed form. *)
Lemma run_current_closed annualRent inputs k :
  valid_params inputs ->
  ((Z.of_nat k <= gracePeriod inputs)%Z ->
   currentRent (run annualRent inputs k) = annualRent) /\
  ((gracePeriod inputs < Z.of_nat k)%Z ->
   currentRent (run annualRent inputs k)
   == annualRent * increase_factor inputs
        ^ ((Z.of_nat k - gracePeriod inputs - 1) / rentIncreaseInterval inputs)).
Proof.
  intros Hv. pose proof Hv as (_ & Hg & Hi & _).
  induction k as [|k [IH1 IH2]].
  - split; [reflexivity|lia].
  - rewrite run_S, year_step_current, rent_step_fst, increase_due_valid
      by assumption.
    set (g := gracePeriod inputs) in *.
    set (n := rentIncreaseInterval inputs) in *.
    replace (Z.of_nat k + 1)%Z with (Z.of_nat (S k)) by lia.
    destruct (Z.ltb_spec (g + 1) (Z.of_nat (S k))) as [H1|H1]; cbn [andb].
    + split; [lia|intros _].
      destruct (Z.eqb_spec ((Z.of_nat (S k) - g - 1) mod n) 0) as [H2|H2].
      * rewrite div_step_due by lia.
        rewrite Qpower_plus'.
        2:{ assert (0 <= (Z.of_nat (S k) - g - 1 - 1) / n)%Z
              by (apply Z.div_pos; lia). lia. }
        rewrite IH2 by lia.
        replace (Z.of_nat (S k) - g - 1 - 1)%Z with (Z.of_nat k - g - 1)%Z
          by lia.
        rewrite Qpower_1_r. ring.
      * rewrite div_step_not_due by lia.
        rewrite IH2 by lia.
        replace (Z.of_nat (S k) - g - 1 - 1)%Z with (Z.of_nat k - g - 1)%Z
          by lia.
        reflexivity.
    + split.
      * intros H. apply IH1. lia.
      * intros H. assert (E : Z.of_nat (S k) = (g + 1)%Z) by lia.
        rewrite IH1 by lia. rewrite E.
        replace (g + 1 - g - 1)%Z with 0%Z by lia.
        rewrite Z.div_0_l by lia. cbn. ring.
Qed.

(** After the grace period the rent written in the entry is the running
    rent the iteration leaves behind. *)
Lemma entry_rent_post_grace annualRent inputs i :
  (gracePeriod inputs < Z.of_nat i + 1)%Z ->
  rent (entry_of inputs (Z.of_nat i + 1)%Z (run annualRent inputs i))
  = currentRent (run annualRent inputs (S i)).
Proof.
  intros H. rewrite run_S, year_step_current.
  unfold entry_of; cbn [rent]. now apply rent_step_charged.
Qed.

(** C2: for valid parameters and every year [y] after the grace period, the
    rent charged is [annualRent * (1 + rate/100) ^ floor ((y - grace - 1) /
    interval)]; the first year after the grace period is charged
    [annualRent] itself; and every later year is charged the rent of the
    year before, multiplied by the factor exactly when
    [(y - grace - 1) mod interval = 0]. *)
Theorem rent_escalation_schedule (annualRent : Q) (inputs : Inputs) (y : Z) :
  valid_params inputs ->
  (gracePeriod inputs < y <= contractDuration inputs)%Z ->
  let schedule := snd (calculateNPV annualRent inputs) in
  exists e,
    nth_error schedule (Z.to_nat (y - 1)) = Some e /\
    year e = y /\
    rent e == annualRent * increase_factor inputs
                ^ ((y - gracePeriod inputs - 1) / rentIncreaseInterval inputs)
    /\
    (y = (gracePeriod inputs + 1)%Z -> rent e = annualRent) /\
    ((gracePeriod inputs + 1 < y)%Z ->
     exists e',
       nth_error schedule (Z.to_nat (y - 2)) = Some e' /\
       year e' = (y - 1)%Z /\
       rent e
       = if ((y - gracePeriod inputs - 1) mod rentIncreaseInterval inputs =? 0)%Z
         then rent e' * increase_factor inputs
         else rent e').
Proof.
  intros Hv Hy. pose proof Hv as (_ & Hg & Hi & _).
  cbv zeta. unfold calculateNPV, calculateNPV_state; cbn [snd].
  fold (run annualRent inputs (Z.to_nat (contractDuration inputs))).
  set (i := Z.to_nat (y - 1)).
  assert (Ei : (Z.of_nat i + 1)%Z = y) by (unfold i; lia).
  exists (entry_of inputs (Z.of_nat i + 1)%Z (run annualRent inputs i)).
  split; [apply run_nth_exists; lia|].
  split; [exact Ei|].
  rewrite entry_rent_post_grace by lia.
  destruct (run_current_closed annualRent inputs (S i) Hv) as [_ Hclosed].
  split; [|split].
  - rewrite Hclosed by lia.
    now replace (Z.of_nat (S i)) with y by lia.
  - intros E. rewrite run_S, year_step_current, rent_step_fst,
      increase_due_valid by assumption.
    destruct (Z.ltb_spec (gracePeriod inputs + 1) (Z.of_nat i + 1)); [lia|].
    cbn [andb].
    destruct (run_current_closed annualRent inputs i Hv) as [H0 _].
    apply H0. lia.
  - intros Hlate. destruct i as [|j]; [lia|].
    exists (entry_of inputs (Z.of_nat j + 1)%Z (run annualRent inputs j)).
    split.
    { replace (Z.to_nat (y - 2)) with j by lia. apply run_nth_exists. lia. }
    split; [rewrite entry_of_year; lia|].
    rewrite entry_rent_post_grace by lia.
    rewrite (run_S annualRent inputs (S j)), year_step_current, rent_step_fst,
      increase_due_valid by assumption.
    rewrite Ei.
    destruct (Z.ltb_spec (gracePeriod inputs + 1) y); [|lia].
    reflexivity.
Qed.

(** The eighth year of the default lease: the first increase (2 years of
    grace, an increase every 5 years). *)
Lemma rent_escalation_schedule_witness :
  let schedule := snd (calculateNPV 1000 scenarioA) in
  exists e,
    nth_error schedule 7 = Some e /\
    year e = 8%Z /\
    rent e == 1000 * increase_factor scenarioA ^ 1 /\
    exists e',
      nth_error schedule 6 = Some e' /\
      year e' = 7%Z /\
      rent e = rent e' * increase_factor scenarioA.
Proof.
  destruct (rent_escalation_schedule 1000 scenarioA 8 scenarioA_valid)
    as (e & H1 & H2 & H3 & _ & H5).
  - cbn. lia.
  - exists e. split; [exact H1|]. split; [exact H2|]. split; [exact H3|].
    apply H5. cbn. lia.
Defined.

(** * Sign and growth of the rent *)

Lemma Qle_mult_ge_1 c f : 0 <= c -> 1 <= f -> c <= c * f.
Proof. intros Hc Hf. nra. Qed.

Lemma rent_step_grows inputs y c :
  0 <= c -> 1 <= increase_factor inputs ->
  c <= fst (rent_step inputs y c).
Proof.
  intros Hc Hf. rewrite rent_step_fst.
  destruct (increase_due inputs y); [now apply Qle_mult_ge_1|lra].
Qed.

Lemma run_current_nonneg annualRent inputs k :
  0 <= annualRent -> 0 <= rentIncreaseRate inputs ->
  0 <= currentRent (run annualRent inputs k).
Proof.
  intros Hr Hrate. pose proof (increase_factor_ge_1 _ Hrate) as Hf.
  induction k as [|k IH]; [exact Hr|].
  rewrite run_S, year_step_current.
  apply Qle_trans with (1 := IH). now apply rent_step_grows.
Qed.

Lemma entry_rent_nonneg annualRent inputs i :
  0 <= annualRent -> 0 <= rentIncreaseRate inputs ->
  0 <= rent (entry_of inputs (Z.of_nat i + 1)%Z (run annualRent inputs i)).
Proof.
  intros Hr Hrate.
  destruct (Z.lt_ge_cases (gracePeriod inputs) (Z.of_nat i + 1)) as [H|H].
  - rewrite entry_rent_post_grace by assumption.
    now apply run_current_nonneg.
  - rewrite entry_of_grace by lia. lra.
Qed.

(** C10: for a non-negative annual rent and a non-negative increase rate,
    every rent of the schedule is non-negative, and from the first year
    after the grace period on the rent of a year is at most the rent of the
    next year. *)
Theorem rent_nonnegative_nondecreasing (annualRent : Q) (inputs : Inputs) :
  0 <= annualRent -> 0 <= rentIncreaseRate inputs ->
  let schedule := snd (calculateNPV annualRent inputs) in
  (forall e, In e schedule -> 0 <= rent e) /\
  (forall i e e',
     nth_error schedule i = Some e -> nth_error schedule (S i) = Some e' ->
     (gracePeriod inputs < year e)%Z -> rent e <= rent e').
Proof.
  intros Hr Hrate. cbv zeta.
  unfold calculateNPV, calculateNPV_state; cbn [snd].
  fold (run annualRent inputs (Z.to_nat (contractDuration inputs))).
  split.
  - intros e Hin. apply In_nth_error in Hin. destruct Hin as [i Hi].
    destruct (run_nth _ _ _ _ _ Hi) as [_ ->].
    now apply entry_rent_nonneg.
  - intros i e e' He He' Hy.
    destruct (run_nth _ _ _ _ _ He) as [_ ->].
    destruct (run_nth _ _ _ _ _ He') as [_ ->].
    rewrite entry_of_year in Hy.
    rewrite (entry_rent_post_grace annualRent inputs i) by assumption.
    rewrite (entry_rent_post_grace annualRent inputs (S i)) by lia.
    rewrite (run_S annualRent inputs (S i)), year_step_current.
    apply rent_step_grows.
    + now apply run_current_nonneg.
    + now apply increase_factor_ge_1.
Qed.

(** Years 7 and 8 of the default lease, across the first increase. *)
Lemma rent_nonnegative_nondecreasing_witness :
  let schedule := snd (calculateNPV 1000 scenarioA) in
  let d := mkCashFlow 0 0 0 0 in
  0 <= rent (nth 6 schedule d) /\
  rent (nth 6 schedule d) <= rent (nth 7 schedule d).
Proof.
  cbv zeta.
  destruct (rent_nonnegative_nondecreasing 1000 scenarioA) as [H1 H2].
  - unfold Qle; cbn; lia.
  - unfold Qle; cbn; lia.
  - split.
    + apply H1. apply nth_In. vm_compute. lia.
    + apply (H2 6%nat).
      * vm_compute. reflexivity.
      * vm_compute. reflexivity.
      * vm_compute. reflexivity.
Defined.

(** * Payback period *)

Lemma payback_scan_spec rest :
  forall i len,
    (exists j e,
        nth_error rest j = Some e /\ 0 <= cumulativeCashFlow e /\
        (forall j' e', (j' < j)%nat -> nth_error rest j' = Some e' ->
                       cumulativeCashFlow e' < 0) /\
        payback_scan rest i len = S (i + j)) \/
    ((forall e, In e rest -> cumulativeCashFlow e < 0) /\
     payback_scan rest i len = len).
Proof.
  induction rest as [|cf rest IH]; intros i len.
  - right. split; [intros e []|reflexivity].
  - cbn [payback_scan]. destruct (Qle_bool 0 (cumulativeCashFlow cf)) eqn:E.
    + left. exists 0%nat, cf. apply Qle_bool_iff in E.
      repeat split; [assumption|intros; lia|f_equal; lia].
    + assert (Hcf : cumulativeCashFlow cf < 0).
      { destruct (Qlt_le_dec (cumulativeCashFlow cf) 0) as [H|H];
          [assumption|]. apply Qle_bool_iff in H. congruence. }
      destruct (IH (S i) len) as [(j & e & Hj & He & Hbefore & Hres)|[Hall Hres]].
      * left. exists (S j), e. repeat split; try assumption.
        -- intros [|j'] e' Hlt He'.
           ++ cbn in He'. now inversion He'; subst.
           ++ apply (Hbefore j'); [lia|assumption].
        -- rewrite Hres. lia.
      * right. split; [|assumption].
        intros e [<-|Hin]; [assumption|now apply Hall].
Qed.

(** C8: [calculatePaybackPeriod] returns the 1-based position of the first
    entry whose cumulative cash flow is non-negative, and the length of the
    schedule when no entry has a non-negative cumulative cash flow. *)
Theorem payback_first_nonnegative (data : list CashFlow) :
  (forall i e,
     nth_error data i = Some e -> 0 <= cumulativeCashFlow e ->
     (forall j e', (j < i)%nat -> nth_error data j = Some e' ->
                   cumulativeCashFlow e' < 0) ->
     calculatePaybackPeriod data = S i) /\
  ((forall e, In e data -> cumulativeCashFlow e < 0) ->
   calculatePaybackPeriod data = length data).
Proof.
  unfold calculatePaybackPeriod.
  destruct (payback_scan_spec data 0 (length data))
    as [(j & e & Hj & He & Hbefore & Hres)|[Hall Hres]].
  - split.
    + intros i e0 Hi He0 Hbefore0. rewrite Hres. cbn. f_equal.
      destruct (Nat.lt_trichotomy i j) as [Hlt|[Heq|Hgt]].
      * specialize (Hbefore i e0 Hlt Hi). lra.
      * now symmetry.
      * specialize (Hbefore0 j e Hgt Hj). lra.
    + intros Hall. apply nth_error_In in Hj. specialize (Hall e Hj). lra.
  - split.
    + intros i e0 Hi He0 _. apply nth_error_In in Hi.
      specialize (Hall e0 Hi). lra.
    + intros _. exact Hres.
Qed.

(** A schedule that turns non-negative in its third year, and one that
    never does. *)
Lemma payback_first_nonnegative_witness :
  calculatePaybackPeriod
    [mkCashFlow 1 0 0 (-100); mkCashFlow 2 70 60 (-40);
     mkCashFlow 3 70 50 10; mkCashFlow 4 70 45 55] = 3%nat /\
  calculatePaybackPeriod
    [mkCashFlow 1 0 0 (-100); mkCashFlow 2 70 60 (-40)] = 2%nat.
Proof.
  split.
  - apply (proj1 (payback_first_nonnegative _) 2%nat (mkCashFlow 3 70 50 10)).
    + reflexivity.
    + unfold Qle; cbn; lia.
    + intros j e' Hj He'.
      destruct j as [|[|j]]; [| |lia]; cbn in He'; inversion He'; subst;
        unfold Qlt; cbn; lia.
  - apply (proj2 (payback_first_nonnegative
                    [mkCashFlow 1 0 0 (-100); mkCashFlow 2 70 60 (-40)])).
    intros e [<-|[<-|[]]]; unfold Qlt; cbn; lia.
Defined.

(** * The entry point *)

Lemma Qle_bool_false x y : y < x -> Qle_bool x y = false.
Proof.
  intros H. destruct (Qle_bool x y) eqn:E; [|reflexivity].
  apply Qle_bool_iff in E. lra.
Qed.

(** The trace of a run in which both checks pass.  The interactive NPV is
    computed at the value the range control holds, not at the optimal
    rent. *)
Lemma calculateOptimalRent_computes pg :
  let inputs := getInputValues (form pg) in
  0 < totalDevelopmentCost inputs -> (0 < contractDuration inputs)%Z ->
  let optimalRent := findOptimalRent inputs in
  let result := calculateNPV (inject_Z optimalRent) inputs in
  let paybackPeriod := calculatePaybackPeriod (snd result) in
  let annualReturn :=
    calculateAnnualReturn (inject_Z optimalRent)
                          (totalDevelopmentCost inputs) in
  let currentValue :=
    sliderControl pg (inject_Z optimalRent * (3 # 2))
                  (inject_Z optimalRent) in
  trace (calculateOptimalRent pg)
  = trace pg ++
    [ CalledFindOptimalRent inputs;
      CalledCalculateNPV (inject_Z optimalRent) inputs;
      ResultsShown optimalRent (fst result) paybackPeriod annualReturn;
      TableShown (snd result);
      SliderShown (inject_Z optimalRent * (3 # 2)) (inject_Z optimalRent);
      CalledCalculateNPV currentValue inputs;
      InteractiveShown currentValue (fst (calculateNPV currentValue inputs));
      ConsoleLogged optimalRent (fst result) paybackPeriod annualReturn ].
Proof.
  cbv zeta. intros Hc Hd. unfold calculateOptimalRent.
  set (inputs := getInputValues (form pg)) in *.
  rewrite (Qle_bool_false _ _ Hc).
  destruct (Z.leb_spec (contractDuration inputs) 0); [lia|].
  generalize (findOptimalRent inputs). intros optimalRent.
  unfold updateRentValue, updateSlider, updateCashFlowTable, updateResults,
    emit, calculateNPV.
  cbn [trace form sliderValue sliderMax sliderControl fst snd]. fold inputs.
  generalize (calculateNPV_state (inject_Z optimalRent) inputs). intros st.
  repeat rewrite <- app_assoc. reflexivity.
Qed.

(** A page whose form reads as the default lease is not rejected. *)
Lemma default_lease_computed pg :
  getInputValues (form pg) = scenarioA -> trace pg = [] ->
  (forall a, ~ In (Alerted a) (trace (calculateOptimalRent pg))) /\
  exists rest,
    trace (calculateOptimalRent pg)
    = CalledFindOptimalRent scenarioA
      :: CalledCalculateNPV (inject_Z (findOptimalRent scenarioA)) scenarioA
      :: ResultsShown
           (findOptimalRent scenarioA)
           (fst (calculateNPV (inject_Z (findOptimalRent scenarioA))
                              scenarioA))
           (calculatePaybackPeriod
              (snd (calculateNPV (inject_Z (findOptimalRent scenarioA))
                                 scenarioA)))
           (calculateAnnualReturn (inject_Z (findOptimalRent scenarioA))
                                  (totalDevelopmentCost scenarioA))
      :: rest.
Proof.
  intros Hin Htr.
  pose proof (calculateOptimalRent_computes pg) as H. cbv zeta in H.
  rewrite Hin, Htr in H. cbn [app] in H.
  rewrite H.
  - split.
    + intros a Ha. cbn [In] in Ha.
      repeat (destruct Ha as [Ha|Ha]; [discriminate Ha|]). exact Ha.
    + eexists. reflexivity.
  - unfold Qlt; cbn; lia.
  - cbn; lia.
Qed.

(** C9, on the page of [index.html] with a development cost of 0 in the
    form, and with a contract duration of 0: the inputs read are the
    default lease, no alert is raised, and [calculateOptimalRent] calls the
    search and the projection and shows results. *)
Theorem zero_fields_not_rejected :
  let zeroCost :=
    page_of (mkForm None None None None None None None None (Some 0)) in
  let zeroDuration :=
    page_of (mkForm (Some 0%Z) None None None None None None None None) in
  let shown :=
    ResultsShown
      (findOptimalRent scenarioA)
      (fst (calculateNPV (inject_Z (findOptimalRent scenarioA)) scenarioA))
      (calculatePaybackPeriod
         (snd (calculateNPV (inject_Z (findOptimalRent scenarioA))
                            scenarioA)))
      (calculateAnnualReturn (inject_Z (findOptimalRent scenarioA))
                             (totalDevelopmentCost scenarioA)) in
  (getInputValues (form zeroCost) = scenarioA /\
   (forall a, ~ In (Alerted a) (trace (calculateOptimalRent zeroCost))) /\
   exists rest,
     trace (calculateOptimalRent zeroCost)
     = CalledFindOptimalRent scenarioA
       :: CalledCalculateNPV (inject_Z (findOptimalRent scenarioA)) scenarioA
       :: shown :: rest) /\
  (getInputValues (form zeroDuration) = scenarioA /\
   (forall a, ~ In (Alerted a) (trace (calculateOptimalRent zeroDuration))) /\
   exists rest,
     trace (calculateOptimalRent zeroDuration)
     = CalledFindOptimalRent scenarioA
       :: CalledCalculateNPV (inject_Z (findOptimalRent scenarioA)) scenarioA
       :: shown :: rest).
Proof.
  cbv zeta. split; (split; [reflexivity|]);
    apply default_lease_computed; reflexivity.
Qed.

(** On the default lease the range control does not hold the optimal rent
    49,999,237 but the multiple of its step next to it, so the interactive
    NPV is the one of 50,000,000. *)
Remark default_lease_slider_value :
  range_control (inject_Z 49999237 * (3 # 2)) (inject_Z 49999237)
  = 50000000.
Proof. vm_compute. reflexivity. Qed.

(** A field left at 0 never reaches the checks: [parseFloat(..) || d]
    replaces it by the default. *)
Remark zero_field_takes_default :
  totalDevelopmentCost
    (getInputValues
       (mkForm None None None None None None None None (Some 0)))
  = 93480000 /\
  contractDuration
    (getInputValues
       (mkForm (Some 0%Z) None None None None None None None None))
  = 20%Z.
Proof. split; reflexivity. Qed.

(** * The search on the default lease *)

(** No rent is a crossing point of the NPV from non-negative to negative:
    the NPV does not decrease with the rent. *)
Corollary npv_never_crosses_down (inputs : Inputs) (r : Q) :
  valid_params inputs ->
  0 <= fst (calculateNPV r inputs) ->
  0 <= fst (calculateNPV (r + 1000) inputs).
Proof.
  intros Hv H. apply Qle_trans with (1 := H).
  apply valid_params_mono; [assumption|lra].
Qed.

(** The rent at which the default lease breaks even lies between 9,638,000
    and 9,639,000. *)
Lemma scenarioA_break_even :
  fst (calculateNPV 9638000 scenarioA) < 0 /\
  0 <= fst (calculateNPV 9639000 scenarioA).
Proof.
  split.
  - apply Qnot_le_lt. intros H. apply Qle_bool_iff in H. vm_compute in H.
    discriminate.
  - apply Qle_bool_iff. vm_compute. reflexivity.
Qed.

(** C1, on the default lease (valid, and feasible at positive rents such as
    10,000,000): [findOptimalRent] returns 49,999,237, the last midpoint
    below the upper bound of the search; the NPV there is non-negative, and
    it is still non-negative 1000 units higher. *)
Theorem scenarioA_search_overshoots :
  valid_params scenarioA /\
  0 <= fst (calculateNPV 10000000 scenarioA) /\
  findOptimalRent scenarioA = 49999237%Z /\
  0 <= fst (calculateNPV (inject_Z (findOptimalRent scenarioA)) scenarioA) /\
  ~ fst (calculateNPV (inject_Z (findOptimalRent scenarioA) + 1000) scenarioA)
    < 0.
Proof.
  split; [exact scenarioA_valid|].
  split; [apply Qle_bool_iff; vm_compute; reflexivity|].
  split; [vm_compute; reflexivity|].
  split; [apply Qle_bool_iff; vm_compute; reflexivity|].
  apply Qle_not_lt. apply Qle_bool_iff. vm_compute. reflexivity.
Qed.

(** C3, Scenario A: the rent returned is 49,999,237, an eight-digit value
    outside [100000, 9999999]; the NPV at that rent exceeds 391,000,000;
    the payback period of the schedule is 5. *)
Theorem scenarioA_results :
  let optimalRent := findOptimalRent scenarioA in
  let result := calculateNPV (inject_Z optimalRent) scenarioA in
  optimalRent = 49999237%Z /\
  ~ (100000 <= optimalRent <= 9999999)%Z /\
  391000000 < fst result /\
  ~ (-1000 <= fst result <= 1000) /\
  calculatePaybackPeriod (snd result) = 5%nat.
Proof.
  cbv zeta.
  assert (Hnpv : 391000000
                 < fst (calculateNPV (inject_Z (findOptimalRent scenarioA))
                                     scenarioA)).
  { apply Qnot_le_lt. intros H. apply Qle_bool_iff in H. vm_compute in H.
    discriminate. }
  split; [vm_compute; reflexivity|].
  split; [vm_compute; intros [_ H]; apply H; reflexivity|].
  split; [exact Hnpv|].
  split; [intros [_ H]; lra|].
  vm_compute. reflexivity.
Qed.

(** * Further properties of the search *)

(** The result of the loop is the rent it started with, or a midpoint that
    passed the test, inside the interval. *)
Lemma bisect_result feasible fuel :
  forall low high optimalRent,
    (low <= high)%Z ->
    bisect feasible fuel low high optimalRent = optimalRent \/
    (low <= bisect feasible fuel low high optimalRent < high)%Z /\
    feasible (bisect feasible fuel low high optimalRent) = true.
Proof.
  induction fuel as [|fuel IH]; intros low high opt Hlh; [now left|].
  rewrite bisect_S.
  destruct (Z.ltb_spec 1000 (high - low)) as [Hw|Hw]; [|now left].
  assert (Hmid : (low <= (low + high) / 2 < high)%Z).
  { split; [apply Z.div_le_lower_bound|apply Z.div_lt_upper_bound]; lia. }
  destruct (feasible ((low + high) / 2)%Z) eqn:E.
  - right. destruct (IH ((low + high) / 2)%Z high ((low + high) / 2)%Z)
      as [->|[Hr Hf]]; [lia| |].
    + split; [lia|exact E].
    + split; [lia|exact Hf].
  - destruct (IH low ((low + high) / 2)%Z opt) as [H|[Hr Hf]]; [lia| |].
    + now left.
    + right. split; [lia|exact Hf].
Qed.

(** X1: whatever the inputs, the rent returned by [findOptimalRent] lies
    in [0, 50000000), and it is 0 or a rent whose NPV is non-negative. *)
Theorem findOptimalRent_range (inputs : Inputs) :
  (0 <= findOptimalRent inputs < 50000000)%Z /\
  (findOptimalRent inputs = 0%Z \/
   0 <= fst (calculateNPV (inject_Z (findOptimalRent inputs)) inputs)).
Proof.
  unfold findOptimalRent. rewrite search_bisect.
  destruct (bisect_result (npv_feasible inputs) maxIterations 0 50000000 0)
    as [H|[Hr Hf]]; [lia| |].
  - rewrite H. split; [lia|now left].
  - split; [exact Hr|]. right. apply Qle_bool_iff. exact Hf.
Qed.

(** An interval of width at most [999 * 2^k + 1] is brought to the
    tolerance in [k] iterations: more fuel changes nothing. *)
Lemma bisect_fuel_enough feasible k :
  forall n low high optimalRent,
    (high - low <= 999 * 2 ^ Z.of_nat k + 1)%Z ->
    bisect feasible (k + n) low high optimalRent
    = bisect feasible k low high optimalRent.
Proof.
  induction k as [|k IH]; intros n low high opt Hw.
  - cbn [Nat.add bisect]. destruct n as [|n]; [reflexivity|].
    rewrite bisect_S. cbn in Hw.
    destruct (Z.ltb_spec 1000 (high - low)); [lia|reflexivity].
  - change (S k + n)%nat with (S (k + n)). rewrite !bisect_S.
    destruct (Z.ltb_spec 1000 (high - low)) as [Hlt|Hlt]; [|reflexivity].
    rewrite Nat2Z.inj_succ, Z.pow_succ_r in Hw by lia.
    assert (Hp : (0 < 2 ^ Z.of_nat k)%Z) by (apply Z.pow_pos_nonneg; lia).
    assert (Hmid : (high - (low + high) / 2 <= 999 * 2 ^ Z.of_nat k + 1 /\
                    (low + high) / 2 - low <= 999 * 2 ^ Z.of_nat k + 1)%Z).
    { generalize dependent (2 ^ Z.of_nat k)%Z. intros P Hw Hp.
      pose proof (Z.div_mod (low + high) 2 ltac:(lia)).
      pose proof (Z.mod_pos_bound (low + high) 2 ltac:(lia)). lia. }
    destruct (feasible ((low + high) / 2)%Z); apply IH; lia.
Qed.

(** X2: the cap of 50 iterations is never what stops the search: from the
    interval [0, 50000000] the tolerance of 1000 is reached within 16
    iterations, so every cap of at least 16 gives the result of
    [findOptimalRent]. *)
Theorem iteration_cap_not_reached (inputs : Inputs) (cap : nat) :
  (16 <= cap)%nat ->
  search inputs cap 0 50000000 0 = findOptimalRent inputs.
Proof.
  intros Hcap. unfold findOptimalRent. rewrite !search_bisect.
  replace cap with (16 + (cap - 16))%nat by lia.
  change maxIterations with (16 + 34)%nat.
  rewrite !bisect_fuel_enough; [reflexivity| |]; vm_compute; discriminate.
Qed.

Lemma iteration_cap_not_reached_witness :
  search scenarioA 20 0 50000000 0 = findOptimalRent scenarioA.
Proof. apply (iteration_cap_not_reached scenarioA 20). lia. Defined.

(** The two results of the search, on the default lease. *)
Lemma findOptimalRent_two_values_witness :
  findOptimalRent scenarioA
  = if npv_feasible scenarioA 25000000 then 49999237%Z else 0%Z.
Proof. exact (findOptimalRent_two_values scenarioA scenarioA_valid). Defined.

(** * The NPV as a function of the rent *)

Lemma rent_step_scale inputs y a c1 c2 :
  c1 == a * c2 ->
  fst (rent_step inputs y c1) == a * fst (rent_step inputs y c2) /\
  snd (rent_step inputs y c1) == a * snd (rent_step inputs y c2).
Proof.
  intros H. unfold rent_step.
  destruct (gracePeriod inputs <? y)%Z; cbn [fst snd].
  - destruct (increase_due inputs y); cbn [fst snd]; split;
      try assumption; rewrite H; ring.
  - split; [assumption|ring].
Qed.

Lemma run_scale annualRent inputs k :
  currentRent (run annualRent inputs k)
  == annualRent * currentRent (run 1 inputs k) /\
  npv (run annualRent inputs k) + totalDevelopmentCost inputs
  == annualRent * (npv (run 1 inputs k) + totalDevelopmentCost inputs).
Proof.
  induction k as [|k [IHc IHn]].
  - cbn. split; ring.
  - rewrite !run_S, !year_step_current, !year_step_npv.
    destruct (rent_step_scale inputs (Z.of_nat k + 1)%Z annualRent _ _ IHc)
      as [Hf Hs].
    split; [exact Hf|].
    unfold entry_of; cbn [discountedCashFlow].
    rewrite Hs.
    assert (E : npv (run annualRent inputs k)
                == annualRent
                   * (npv (run 1 inputs k) + totalDevelopmentCost inputs)
                   - totalDevelopmentCost inputs)
      by (rewrite <- IHn; ring).
    rewrite E. unfold Qdiv. ring.
Qed.

Lemma calculateNPV_affine annualRent inputs :
  fst (calculateNPV annualRent inputs)
  == annualRent * unit_value inputs - totalDevelopmentCost inputs.
Proof.
  unfold unit_value, calculateNPV, calculateNPV_state; cbn [fst].
  destruct (run_scale annualRent inputs
              (Z.to_nat (contractDuration inputs))) as [_ H].
  unfold run in H. rewrite <- H. ring.
Qed.

(** X4: with a positive capitalization rate the NPV is an affine function
    of the annual rent: the rent times the value of a unit of rent, minus
    the development cost. *)
Theorem npv_affine (annualRent : Q) (inputs : Inputs) :
  0 < capitalizationRate inputs ->
  fst (calculateNPV annualRent inputs)
  == annualRent * unit_value inputs - totalDevelopmentCost inputs.
Proof. intros _. apply calculateNPV_affine. Qed.

Lemma npv_affine_witness :
  fst (calculateNPV 1000000 scenarioA)
  == 1000000 * unit_value scenarioA - totalDevelopmentCost scenarioA.
Proof.
  apply (npv_affine 1000000 scenarioA). unfold Qlt; cbn; lia.
Defined.

(** * Cumulative cash flow and payback *)

Lemma entry_dcf_nonneg annualRent inputs i :
  0 <= annualRent -> 0 <= rentIncreaseRate inputs ->
  0 < capitalizationRate inputs ->
  0 <= discountedCashFlow
         (entry_of inputs (Z.of_nat i + 1)%Z (run annualRent inputs i)).
Proof.
  intros Hr Hrate Hcap.
  pose proof (entry_rent_nonneg annualRent inputs i Hr Hrate) as H.
  unfold entry_of in *; cbn [discountedCashFlow rent] in *.
  apply Qdiv_nonneg; [now apply discount_pos|exact H].
Qed.

Lemma run_cumulative_le annualRent inputs i j :
  0 <= annualRent -> 0 <= rentIncreaseRate inputs ->
  0 < capitalizationRate inputs ->
  (i <= j)%nat ->
  cumulative (run annualRent inputs i) <= cumulative (run annualRent inputs j).
Proof.
  intros Hr Hrate Hcap Hij. induction Hij as [|j Hij IH]; [lra|].
  rewrite run_S, year_step_cumulative.
  pose proof (entry_dcf_nonneg annualRent inputs j Hr Hrate Hcap). lra.
Qed.

(** X5: for a non-negative rent, a non-negative increase rate and a
    positive capitalization rate, no discounted cash flow is negative, the
    cumulative cash flow never decreases from one year to a later one, and
    it stays between the negated development cost and the NPV. *)
Theorem cumulative_nondecreasing (annualRent : Q) (inputs : Inputs) :
  0 <= annualRent -> 0 <= rentIncreaseRate inputs ->
  0 < capitalizationRate inputs ->
  let schedule := snd (calculateNPV annualRent inputs) in
  (forall e, In e schedule -> 0 <= discountedCashFlow e) /\
  (forall i j ei ej,
     (i <= j)%nat ->
     nth_error schedule i = Some ei -> nth_error schedule j = Some ej ->
     cumulativeCashFlow ei <= cumulativeCashFlow ej) /\
  (forall e, In e schedule ->
     - totalDevelopmentCost inputs <= cumulativeCashFlow e
     /\ cumulativeCashFlow e <= fst (calculateNPV annualRent inputs)).
Proof.
  intros Hr Hrate Hcap. cbv zeta.
  unfold calculateNPV, calculateNPV_state; cbn [fst snd].
  fold (run annualRent inputs (Z.to_nat (contractDuration inputs))).
  set (k := Z.to_nat (contractDuration inputs)).
  split; [|split].
  - intros e Hin. apply In_nth_error in Hin. destruct Hin as [i Hi].
    destruct (run_nth _ _ _ _ _ Hi) as [_ ->].
    now apply entry_dcf_nonneg.
  - intros i j ei ej Hij Hi Hj.
    destruct (run_nth _ _ _ _ _ Hi) as [_ ->].
    destruct (run_nth _ _ _ _ _ Hj) as [_ ->].
    rewrite <- !run_S_cumulative.
    apply run_cumulative_le; try assumption; lia.
  - intros e Hin. apply In_nth_error in Hin. destruct Hin as [i Hi].
    destruct (run_nth _ _ _ _ _ Hi) as [Hlt ->].
    rewrite <- run_S_cumulative, run_npv_cumulative. split.
    + change (- totalDevelopmentCost inputs)
        with (cumulative (run annualRent inputs 0)).
      apply run_cumulative_le; try assumption; lia.
    + apply run_cumulative_le; try assumption; lia.
Qed.

Lemma cumulative_nondecreasing_witness :
  let schedule := snd (calculateNPV 1000 scenarioA) in
  let d := mkCashFlow 0 0 0 0 in
  0 <= discountedCashFlow (nth 6 schedule d) /\
  cumulativeCashFlow (nth 2 schedule d) <= cumulativeCashFlow (nth 6 schedule d)
  /\ - totalDevelopmentCost scenarioA <= cumulativeCashFlow (nth 6 schedule d)
  /\ cumulativeCashFlow (nth 6 schedule d) <= fst (calculateNPV 1000 scenarioA).
Proof.
  cbv zeta.
  destruct (cumulative_nondecreasing 1000 scenarioA) as (H1 & H2 & H3).
  - unfold Qle; cbn; lia.
  - unfold Qle; cbn; lia.
  - unfold Qlt; cbn; lia.
  - split; [|split].
    + apply H1. apply nth_In. vm_compute. lia.
    + apply (H2 2%nat 6%nat); [lia| |]; vm_compute; reflexivity.
    + apply H3. apply nth_In. vm_compute. lia.
Defined.

(** X6: for a lease of at least one year (non-negative rent and increase
    rate, positive capitalization rate) the payback period of the projected
    schedule is a year of the contract; it is the contract duration when the
    NPV is negative, and when the NPV is non-negative it is the first year
    whose cumulative cash flow is non-negative. *)
Theorem payback_of_projection (annualRent : Q) (inputs : Inputs) :
  0 <= annualRent -> 0 <= rentIncreaseRate inputs ->
  0 < capitalizationRate inputs -> (1 <= contractDuration inputs)%Z ->
  let result := calculateNPV annualRent inputs in
  let payback := calculatePaybackPeriod (snd result) in
  (1 <= Z.of_nat payback <= contractDuration inputs)%Z /\
  (fst result < 0 -> Z.of_nat payback = contractDuration inputs) /\
  (0 <= fst result ->
   exists e,
     nth_error (snd result) (payback - 1) = Some e /\
     0 <= cumulativeCashFlow e /\
     forall j e', (j < payback - 1)%nat ->
                  nth_error (snd result) j = Some e' ->
                  cumulativeCashFlow e' < 0).
Proof.
  intros Hr Hrate Hcap Hd. cbv zeta.
  unfold calculateNPV, calculateNPV_state, calculatePaybackPeriod;
    cbn [fst snd].
  fold (run annualRent inputs (Z.to_nat (contractDuration inputs))).
  set (k := Z.to_nat (contractDuration inputs)).
  assert (Hk : contractDuration inputs = Z.of_nat k) by (unfold k; lia).
  rewrite Hk. rewrite run_length.
  destruct (payback_scan_spec (cashFlowData (run annualRent inputs k)) 0 k)
    as [(j & e & Hj & He & Hbefore & Hres)|[Hall Hres]]; rewrite Hres.
  - destruct (run_nth _ _ _ _ _ Hj) as [Hjk Ee]. cbn [Nat.add].
    split; [lia|]. split.
    + intros Hneg. exfalso.
      assert (cumulativeCashFlow e <= npv (run annualRent inputs k)).
      { rewrite Ee, <- run_S_cumulative, run_npv_cumulative.
        apply run_cumulative_le; try assumption; lia. }
      lra.
    + intros _. exists e. replace (S j - 1)%nat with j by lia.
      repeat split; assumption.
  - split; [lia|]. split; [reflexivity|].
    intros Hnpv. exfalso.
    destruct k as [|k']; [lia|].
    assert (Hin : In (entry_of inputs (Z.of_nat k' + 1)%Z
                               (run annualRent inputs k'))
                     (cashFlowData (run annualRent inputs (S k')))).
    { apply (nth_error_In _ k'). apply run_nth_exists. lia. }
    specialize (Hall _ Hin).
    rewrite <- run_S_cumulative, <- run_npv_cumulative in Hall. lra.
Qed.

(** The default lease at a rent of 10,000,000, which pays back, and at a
    rent of 1000, which does not. *)
Lemma payback_of_projection_witness :
  (1 <= Z.of_nat (calculatePaybackPeriod
                    (snd (calculateNPV 10000000 scenarioA))) <= 20)%Z /\
  Z.of_nat (calculatePaybackPeriod (snd (calculateNPV 1000 scenarioA)))
  = 20%Z.
Proof.
  split.
  - apply (payback_of_projection 10000000 scenarioA).
    + unfold Qle; cbn; lia.
    + unfold Qle; cbn; lia.
    + unfold Qlt; cbn; lia.
    + cbn; lia.
  - apply (payback_of_projection 1000 scenarioA).
    + unfold Qle; cbn; lia.
    + unfold Qle; cbn; lia.
    + unfold Qlt; cbn; lia.
    + cbn; lia.
    + vm_compute. reflexivity.
Defined.

(** * The contract duration *)

Lemma for_years_with_duration inputs d n :
  forall y st,
    for_years (with_duration inputs d) n y st = for_years inputs n y st.
Proof.
  induction n as [|n IH]; intros y st; [reflexivity|].
  cbn [for_years]. rewrite IH. reflexivity.
Qed.

Lemma run_with_duration annualRent inputs d k :
  run annualRent (with_duration inputs d) k = run annualRent inputs k.
Proof. unfold run. now rewrite for_years_with_duration. Qed.

Lemma run_data_prefix annualRent inputs i j :
  (i <= j)%nat ->
  cashFlowData (run annualRent inputs i)
  = firstn i (cashFlowData (run annualRent inputs j)).
Proof.
  intros Hij. induction Hij as [|j Hij IH].
  - rewrite <- (run_length annualRent inputs i) at 2.
    now rewrite firstn_all.
  - rewrite run_S, year_step_data, firstn_app, run_length.
    replace (i - j)%nat with 0%nat by lia.
    cbn [firstn]. now rewrite app_nil_r.
Qed.

(** X7: the projection of a lease is a prefix of the projection of the same
    lease with a longer contract: prolonging the contract adds years to the
    schedule and changes none of the earlier ones. *)
Theorem schedule_prefix (annualRent : Q) (inputs : Inputs) (d d' : Z) :
  (d <= d')%Z ->
  snd (calculateNPV annualRent (with_duration inputs d))
  = firstn (Z.to_nat d)
      (snd (calculateNPV annualRent (with_duration inputs d'))).
Proof.
  intros Hd. unfold calculateNPV, calculateNPV_state; cbn [snd].
  fold (run annualRent (with_duration inputs d)
            (Z.to_nat (contractDuration (with_duration inputs d)))).
  fold (run annualRent (with_duration inputs d')
            (Z.to_nat (contractDuration (with_duration inputs d')))).
  rewrite !run_with_duration. cbn [contractDuration with_duration].
  apply run_data_prefix. lia.
Qed.

Lemma schedule_prefix_witness :
  snd (calculateNPV 1000 (with_duration scenarioA 10))
  = firstn 10 (snd (calculateNPV 1000 (with_duration scenarioA 20))).
Proof. apply (schedule_prefix 1000 scenarioA 10 20). lia. Defined.

(** X8: for a non-negative rent and increase rate and a positive
    capitalization rate, prolonging the contract never lowers the NPV. *)
Theorem npv_monotone_in_duration (annualRent : Q) (inputs : Inputs)
  (d d' : Z) :
  0 <= annualRent -> 0 <= rentIncreaseRate inputs ->
  0 < capitalizationRate inputs -> (d <= d')%Z ->
  fst (calculateNPV annualRent (with_duration inputs d))
  <= fst (calculateNPV annualRent (with_duration inputs d')).
Proof.
  intros Hr Hrate Hcap Hd. unfold calculateNPV, calculateNPV_state; cbn [fst].
  fold (run annualRent (with_duration inputs d)
            (Z.to_nat (contractDuration (with_duration inputs d)))).
  fold (run annualRent (with_duration inputs d')
            (Z.to_nat (contractDuration (with_duration inputs d')))).
  rewrite !run_with_duration, !run_npv_cumulative.
  cbn [contractDuration with_duration].
  apply run_cumulative_le; try assumption; lia.
Qed.

Lemma npv_monotone_in_duration_witness :
  fst (calculateNPV 1000 (with_duration scenarioA 10))
  <= fst (calculateNPV 1000 (with_duration scenarioA 20)).
Proof.
  apply (npv_monotone_in_duration 1000 scenarioA 10 20).
  - unfold Qle; cbn; lia.
  - unfold Qle; cbn; lia.
  - unfold Qlt; cbn; lia.
  - lia.
Defined.

(** * The break-even rent *)

(** The first year after the grace period adds [annualRent / discount] to
    the running total, which had stayed at the negated cost until then. *)
Lemma run_first_rent annualRent inputs :
  valid_params inputs ->
  cumulative (run annualRent inputs (S (Z.to_nat (gracePeriod inputs))))
  == - totalDevelopmentCost inputs
     + annualRent / discount inputs (gracePeriod inputs + 1).
Proof.
  intros Hv. pose proof Hv as (_ & Hg & _).
  set (g := Z.to_nat (gracePeriod inputs)).
  assert (Eg : Z.of_nat g = gracePeriod inputs) by (unfold g; lia).
  rewrite run_S, year_step_cumulative.
  rewrite <- run_npv_cumulative, run_grace_npv by lia.
  unfold entry_of; cbn [discountedCashFlow].
  rewrite rent_step_charged, rent_step_fst, increase_due_valid by
    (assumption || lia).
  rewrite Eg.
  destruct (Z.ltb_spec (gracePeriod inputs + 1) (gracePeriod inputs + 1));
    [lia|]. cbn [andb].
  destruct (run_current_closed annualRent inputs g Hv) as [H0 _].
  rewrite H0 by lia. reflexivity.
Qed.

Lemma unit_value_pos inputs :
  valid_params inputs ->
  (gracePeriod inputs < contractDuration inputs)%Z ->
  0 < unit_value inputs.
Proof.
  intros Hv Hgd. pose proof Hv as (_ & Hg & _ & Hrate & Hcap & _).
  unfold unit_value, calculateNPV, calculateNPV_state; cbn [fst].
  fold (run 1 inputs (Z.to_nat (contractDuration inputs))).
  rewrite run_npv_cumulative.
  assert (H1 : cumulative (run 1 inputs (S (Z.to_nat (gracePeriod inputs))))
               <= cumulative (run 1 inputs
                                  (Z.to_nat (contractDuration inputs)))).
  { apply run_cumulative_le; try assumption; [lra|lia]. }
  rewrite run_first_rent in H1 by assumption.
  assert (0 < 1 / discount inputs (gracePeriod inputs + 1)).
  { apply Qlt_shift_div_l; [now apply discount_pos|lra]. }
  lra.
Qed.

(** X9: for valid parameters whose grace period is shorter than the
    contract, the value of a unit of rent is positive, so the NPV grows
    strictly with the rent and is non-negative exactly from the break-even
    rent [totalDevelopmentCost / unit_value] on. *)
Theorem break_even_rent (inputs : Inputs) :
  valid_params inputs ->
  (gracePeriod inputs < contractDuration inputs)%Z ->
  0 < unit_value inputs /\
  (forall r1 r2, r1 < r2 ->
     fst (calculateNPV r1 inputs) < fst (calculateNPV r2 inputs)) /\
  (forall r, 0 <= fst (calculateNPV r inputs)
             <-> totalDevelopmentCost inputs / unit_value inputs <= r).
Proof.
  intros Hv Hgd. pose proof (unit_value_pos inputs Hv Hgd) as HK.
  split; [exact HK|]. split.
  - intros r1 r2 Hr. rewrite !calculateNPV_affine.
    assert (r1 * unit_value inputs < r2 * unit_value inputs)
      by (now apply Qmult_lt_compat_r).
    lra.
  - intros r. rewrite calculateNPV_affine. split; intros H.
    + apply Qle_shift_div_r; [exact HK|]. lra.
    + assert (totalDevelopmentCost inputs / unit_value inputs
              * unit_value inputs <= r * unit_value inputs)
        by (apply Qmult_le_compat_r; [exact H|lra]).
      assert (E : totalDevelopmentCost inputs / unit_value inputs
                  * unit_value inputs == totalDevelopmentCost inputs).
      { field. intros E. rewrite E in HK. now apply Qlt_irrefl in HK. }
      lra.
Qed.

Lemma break_even_rent_witness :
  0 < unit_value scenarioA /\
  fst (calculateNPV 1000 scenarioA) < fst (calculateNPV 2000 scenarioA) /\
  (0 <= fst (calculateNPV 10000000 scenarioA)
   <-> totalDevelopmentCost scenarioA / unit_value scenarioA <= 10000000).
Proof.
  destruct (break_even_rent scenarioA scenarioA_valid) as (H1 & H2 & H3).
  - cbn. lia.
  - split; [exact H1|]. split; [|apply H3].
    apply H2. unfold Qlt; cbn; lia.
Defined.

(** * An interval of zero *)

Lemma run_current_interval_zero annualRent inputs k :
  rentIncreaseInterval inputs = 0%Z ->
  currentRent (run annualRent inputs k) = annualRent.
Proof.
  intros Hi. induction k as [|k IH]; [reflexivity|].
  rewrite run_S, year_step_current, rent_step_fst, IH.
  unfold increase_due, rem_is_zero. rewrite Hi. cbn [Z.eqb negb andb].
  now rewrite andb_false_r.
Qed.

(** X10: with [rentIncreaseInterval = 0] the test [% 0 === 0] never holds:
    no increase is ever applied, and every year after the grace period is
    charged the annual rent itself. *)
Theorem interval_zero_flat_rent (annualRent : Q) (inputs : Inputs) :
  rentIncreaseInterval inputs = 0%Z ->
  forall e, In e (snd (calculateNPV annualRent inputs)) ->
            (gracePeriod inputs < year e)%Z -> rent e = annualRent.
Proof.
  intros Hi e Hin Hy. apply In_nth_error in Hin. destruct Hin as [i Hn].
  unfold calculateNPV, calculateNPV_state in Hn; cbn [snd] in Hn.
  destruct (run_nth _ _ _ _ _ Hn) as [_ ->].
  rewrite entry_of_year in Hy.
  rewrite entry_rent_post_grace by assumption.
  now apply run_current_interval_zero.
Qed.

Lemma interval_zero_flat_rent_witness :
  let inputs := mkInputs 20 2 0 10 7 10000 (5 # 2) 2000 93480000 in
  rent (nth 12 (snd (calculateNPV 1000 inputs)) (mkCashFlow 0 0 0 0)) = 1000.
Proof.
  cbv zeta.
  apply (interval_zero_flat_rent 1000
           (mkInputs 20 2 0 10 7 10000 (5 # 2) 2000 93480000)).
  - reflexivity.
  - apply nth_In. vm_compute. lia.
  - vm_compute. reflexivity.
Defined.

(** * Reading the form *)

Lemma or_default_Z_nonzero v d : d <> 0%Z -> or_default_Z v d <> 0%Z.
Proof.
  intros Hd. unfold or_default_Z. destruct v as [x|]; [|exact Hd].
  destruct (Z.eqb_spec x 0); assumption.
Qed.

Lemma or_default_Q_nonzero v d : ~ d == 0 -> ~ or_default_Q v d == 0.
Proof.
  intros Hd. unfold or_default_Q. destruct v as [x|]; [|exact Hd].
  destruct (Qeq_bool x 0) eqn:E; [exact Hd|].
  now apply Qeq_bool_neq.
Qed.

(** X11: no field of the object returned by [getInputValues] is 0: an
    empty, unreadable or zero field of the form takes its default.  In
    particular a grace period of 0 cannot be entered. *)
Theorem getInputValues_never_zero (f : Form) :
  let inputs := getInputValues f in
  contractDuration inputs <> 0%Z /\
  gracePeriod inputs <> 0%Z /\
  rentIncreaseInterval inputs <> 0%Z /\
  ~ rentIncreaseRate inputs == 0 /\
  ~ capitalizationRate inputs == 0 /\
  ~ landArea inputs == 0 /\
  ~ buildingFactor inputs == 0 /\
  ~ constructionCost inputs == 0 /\
  ~ totalDevelopmentCost inputs == 0.
Proof.
  cbv zeta. unfold getInputValues; cbn.
  repeat split;
    first [ apply or_default_Z_nonzero; discriminate
          | apply or_default_Q_nonzero; discriminate ].
Qed.

(** X12: whatever the form holds, the annual return computed from the cost
    read by [getInputValues] is the rent as a percentage of that cost: the
    branch of [calculateAnnualReturn] for a zero cost is never taken. *)
Theorem annual_return_ratio (f : Form) (optimalRent : Q) :
  let cost := totalDevelopmentCost (getInputValues f) in
  calculateAnnualReturn optimalRent cost * cost == 100 * optimalRent.
Proof.
  cbv zeta.
  assert (Hc : ~ totalDevelopmentCost (getInputValues f) == 0).
  { unfold getInputValues; cbn.
    apply or_default_Q_nonzero. discriminate. }
  unfold calculateAnnualReturn.
  destruct (Qeq_bool (totalDevelopmentCost (getInputValues f)) 0) eqn:E.
  - apply Qeq_bool_eq in E. contradiction.
  - field. exact Hc.
Qed.

(** * Which forms are rejected *)

(** A field that is empty, zero or positive. *)
Lemma or_default_Q_pos v d :
  0 < d -> match v with Some x => 0 <= x | None => True end ->
  0 < or_default_Q v d.
Proof.
  intros Hd Hv. unfold or_default_Q. destruct v as [x|]; [|exact Hd].
  destruct (Qeq_bool x 0) eqn:E; [exact Hd|].
  apply Qeq_bool_neq in E.
  destruct (Qlt_le_dec 0 x) as [H|H]; [exact H|].
  exfalso. apply E. now apply Qle_antisym.
Qed.

Lemma or_default_Z_pos v d :
  (0 < d)%Z -> match v with Some x => (0 <= x)%Z | None => True end ->
  (0 < or_default_Z v d)%Z.
Proof.
  intros Hd Hv. unfold or_default_Z. destruct v as [x|]; [|exact Hd].
  destruct (Z.eqb_spec x 0); lia.
Qed.

(** X13: in terms of what the form holds, [calculateOptimalRent] rejects
    only negative numbers: a negative development cost raises the first
    alert and nothing else, a negative contract duration (the cost being
    accepted) the second; a form whose development cost and contract
    duration are empty, zero or positive is never rejected, the search is
    run on the inputs with the defaults filled in. *)
Theorem rejection_only_for_negative_fields (pg : Page) :
  (forall x, f_totalDevelopmentCost (form pg) = Some x -> x < 0 ->
     calculateOptimalRent pg = emit (Alerted AlertDevelopmentCost) pg) /\
  (forall d, f_contractDuration (form pg) = Some d -> (d < 0)%Z ->
     match f_totalDevelopmentCost (form pg) with
     | Some x => 0 <= x | None => True end ->
     calculateOptimalRent pg = emit (Alerted AlertContractDuration) pg) /\
  (match f_totalDevelopmentCost (form pg) with
   | Some x => 0 <= x | None => True end ->
   match f_contractDuration (form pg) with
   | Some d => (0 <= d)%Z | None => True end ->
   exists rest,
     trace (calculateOptimalRent pg)
     = trace pg ++ CalledFindOptimalRent (getInputValues (form pg)) :: rest).
Proof.
  split; [|split].
  2:{ intros d Hd Hneg Hc. unfold calculateOptimalRent.
      assert (Hcost : 0 < totalDevelopmentCost (getInputValues (form pg))).
      { unfold getInputValues; cbn. apply or_default_Q_pos; [|exact Hc].
        unfold Qlt; cbn; lia. }
      rewrite (Qle_bool_false _ _ Hcost).
      assert (E : contractDuration (getInputValues (form pg)) = d).
      { unfold getInputValues; cbn. rewrite Hd. unfold or_default_Z.
        destruct (Z.eqb_spec d 0); [lia|reflexivity]. }
      rewrite E. destruct (Z.leb_spec d 0); [reflexivity|lia]. }
  - intros x Hx Hneg. unfold calculateOptimalRent.
    assert (E : Qle_bool (totalDevelopmentCost (getInputValues (form pg))) 0
                = true).
    { apply Qle_bool_iff. unfold getInputValues; cbn. rewrite Hx.
      unfold or_default_Q. destruct (Qeq_bool x 0) eqn:E0.
      - apply Qeq_bool_eq in E0. lra.
      - lra. }
    now rewrite E.
  - intros Hc Hd. eexists. rewrite calculateOptimalRent_computes.
    + reflexivity.
    + unfold getInputValues; cbn. apply or_default_Q_pos; [|exact Hc].
      unfold Qlt; cbn; lia.
    + unfold getInputValues; cbn. apply or_default_Z_pos; [lia|exact Hd].
Qed.

(** A cost of -5, and a form with a cost and a duration of 0. *)
Lemma rejection_only_for_negative_fields_witness :
  let bad :=
    page_of (mkForm None None None None None None None None (Some (-5))) in
  let zeros :=
    page_of (mkForm (Some 0%Z) None None None None None None None (Some 0)) in
  let short :=
    page_of (mkForm (Some (-3)%Z) None None None None None None None None) in
  calculateOptimalRent bad = emit (Alerted AlertDevelopmentCost) bad /\
  calculateOptimalRent short = emit (Alerted AlertContractDuration) short /\
  exists rest,
    trace (calculateOptimalRent zeros)
    = CalledFindOptimalRent scenarioA :: rest.
Proof.
  cbv zeta. split; [|split].
  - apply (proj1 (rejection_only_for_negative_fields
      (page_of (mkForm None None None None None None None None (Some (-5)))))
      (-5)).
    + reflexivity.
    + unfold Qlt; cbn; lia.
  - apply (proj1 (proj2 (rejection_only_for_negative_fields
      (page_of
         (mkForm (Some (-3)%Z) None None None None None None None None))))
      (-3)%Z).
    + reflexivity.
    + lia.
    + exact I.
  - apply (proj2 (proj2 (rejection_only_for_negative_fields
      (page_of
         (mkForm (Some 0%Z) None None None None None None None (Some 0)))))).
    + unfold Qle; cbn; lia.
    + cbn; lia.
Defined.

(** * Export *)

(** X14: when both checks of [calculateOptimalRent] pass, the numbers and
    the schedule that [exportResults] puts in its object are the ones
    [calculateOptimalRent] shows on the page. *)
Theorem export_agrees_with_display (timestamp : list N) (pg : Page) :
  let inputs := getInputValues (form pg) in
  0 < totalDevelopmentCost inputs -> (0 < contractDuration inputs)%Z ->
  let exported := exportResults timestamp pg in
  let numbers := exp_results exported in
  exp_inputs exported = inputs /\
  In (ResultsShown (exp_optimalRent numbers) (exp_npv numbers)
                   (exp_paybackPeriod numbers) (exp_annualReturn numbers))
     (trace (calculateOptimalRent pg)) /\
  In (TableShown (exp_cashFlowData exported))
     (trace (calculateOptimalRent pg)).
Proof.
  cbv zeta. intros Hc Hd.
  rewrite (calculateOptimalRent_computes pg Hc Hd).
  unfold exportResults, calculateNPV.
  cbn [exp_inputs exp_results exp_optimalRent exp_npv exp_paybackPeriod
       exp_annualReturn exp_cashFlowData fst snd].
  split; [reflexivity|]. split.
  - apply in_or_app. right. cbn [In]. right. right. left. reflexivity.
  - apply in_or_app. right. cbn [In]. right. right. right. left. reflexivity.
Qed.

Lemma export_agrees_with_display_witness :
  let exported := exportResults [] (page_of empty_form) in
  let numbers := exp_results exported in
  exp_inputs exported = scenarioA /\
  In (ResultsShown (exp_optimalRent numbers) (exp_npv numbers)
                   (exp_paybackPeriod numbers) (exp_annualReturn numbers))
     (trace (calculateOptimalRent (page_of empty_form))) /\
  In (TableShown (exp_cashFlowData exported))
     (trace (calculateOptimalRent (page_of empty_form))).
Proof.
  apply (export_agrees_with_display [] (page_of empty_form)).
  - unfold Qlt; cbn; lia.
  - cbn; lia.
Defined.

(** * Arabic-Indic digits *)

Lemma arabic_digit_shift w :
  is_ascii_digit w = true -> arabic_digit w = (w + 1584)%N.
Proof.
  unfold is_ascii_digit. intros H. apply andb_prop in H. destruct H as [H1 H2].
  apply N.leb_le in H1, H2.
  assert (Hw : (w = 48 \/ w = 49 \/ w = 50 \/ w = 51 \/ w = 52 \/
                w = 53 \/ w = 54 \/ w = 55 \/ w = 56 \/ w = 57)%N) by lia.
  repeat (destruct Hw as [->|Hw]; [reflexivity|]). subst w. reflexivity.
Qed.

Lemma is_ascii_digit_false_above w :
  (57 < w)%N -> is_ascii_digit w = false.
Proof.
  intros H. unfold is_ascii_digit.
  destruct (N.leb_spec w 57); [lia|]. now rewrite andb_false_r.
Qed.

(** X15: [toArabicNumbers] keeps the length of the text; each ASCII digit
    ['0' + d] becomes the Arabic-Indic digit [U+0660 + d] at the same
    place, every other code unit is kept; and no ASCII digit is left in the
    result. *)
Theorem toArabicNumbers_digits (s : list N) :
  length (toArabicNumbers s) = length s /\
  (forall i w, nth_error s i = Some w ->
     nth_error (toArabicNumbers s) i
     = Some (if is_ascii_digit w then (w + 1584)%N else w)) /\
  Forall (fun w => is_ascii_digit w = false) (toArabicNumbers s).
Proof.
  unfold toArabicNumbers. split; [apply length_map|]. split.
  - intros i w H. rewrite nth_error_map, H. cbn [option_map].
    destruct (is_ascii_digit w) eqn:E; [|reflexivity].
    now rewrite arabic_digit_shift.
  - apply Forall_map. apply Forall_forall. intros w _.
    destruct (is_ascii_digit w) eqn:E; [|exact E].
    rewrite arabic_digit_shift by exact E.
    apply is_ascii_digit_false_above. lia.
Qed.

(** The text "20,5". *)
Lemma toArabicNumbers_digits_witness :
  length (toArabicNumbers [50; 48; 44; 53]%N) = 4%nat /\
  nth_error (toArabicNumbers [50; 48; 44; 53]%N) 3 = Some 1637%N /\
  nth_error (toArabicNumbers [50; 48; 44; 53]%N) 2 = Some 44%N /\
  Forall (fun w => is_ascii_digit w = false)
         (toArabicNumbers [50; 48; 44; 53]%N).
Proof.
  destruct (toArabicNumbers_digits [50; 48; 44; 53]%N) as (H1 & H2 & H3).
  split; [exact H1|]. split; [|split; [|exact H3]].
  - apply (H2 3%nat 53%N). reflexivity.
  - apply (H2 2%nat 44%N). reflexivity.
Defined.

Lemma toArabicNumbers_eq_inv s1 :
  forall s2,
    Forall (fun w => (w < 1632 \/ 1641 < w)%N) s1 ->
    Forall (fun w => (w < 1632 \/ 1641 < w)%N) s2 ->
    toArabicNumbers s1 = toArabicNumbers s2 -> s1 = s2.
Proof.
  induction s1 as [|a s1 IH]; intros [|b s2] H1 H2 E;
    try discriminate; [reflexivity|].
  cbn [toArabicNumbers map] in E. injection E as Eab Erest.
  inversion H1 as [|? ? Ha H1']; subst. inversion H2 as [|? ? Hb H2']; subst.
  f_equal; [|now apply IH].
  assert (Hdig : forall w, is_ascii_digit w = true -> (48 <= w <= 57)%N).
  { intros w Hw. unfold is_ascii_digit in Hw. apply andb_prop in Hw.
    destruct Hw as [Hw1 Hw2]. apply N.leb_le in Hw1, Hw2. lia. }
  destruct (is_ascii_digit a) eqn:Ea, (is_ascii_digit b) eqn:Eb.
  - rewrite !arabic_digit_shift in Eab by assumption. lia.
  - rewrite arabic_digit_shift in Eab by assumption.
    apply Hdig in Ea. lia.
  - rewrite arabic_digit_shift in Eab by assumption.
    apply Hdig in Eb. lia.
  - exact Eab.
Qed.

(** X16: applying [toArabicNumbers] twice changes nothing more, and two
    different texts free of Arabic-Indic digits have different images: the
    digits can be read back. *)
Theorem toArabicNumbers_injective (s1 s2 : list N) :
  toArabicNumbers (toArabicNumbers s1) = toArabicNumbers s1 /\
  (Forall (fun w => (w < 1632 \/ 1641 < w)%N) s1 ->
   Forall (fun w => (w < 1632 \/ 1641 < w)%N) s2 ->
   s1 <> s2 -> toArabicNumbers s1 <> toArabicNumbers s2).
Proof.
  split.
  - unfold toArabicNumbers. rewrite map_map. apply map_ext. intros w.
    destruct (is_ascii_digit w) eqn:E; [|now rewrite E].
    rewrite arabic_digit_shift by exact E.
    rewrite is_ascii_digit_false_above; [reflexivity|].
    unfold is_ascii_digit in E. apply andb_prop in E. destruct E as [E _].
    apply N.leb_le in E. lia.
  - intros H1 H2 Hne E. apply Hne. now apply toArabicNumbers_eq_inv.
Qed.

(** The texts "20" and "21" have different images; the text "2" and the
    Arabic-Indic digit two, which is outside the hypothesis, have the same
    one. *)
Lemma toArabicNumbers_injective_witness :
  toArabicNumbers [50; 48]%N <> toArabicNumbers [50; 49]%N /\
  toArabicNumbers [50]%N = toArabicNumbers [1634]%N.
Proof.
  split; [|reflexivity].
  apply (proj2 (toArabicNumbers_injective [50; 48]%N [50; 49]%N)).
  - repeat constructor; lia.
  - repeat constructor; lia.
  - discriminate.
Defined.
